(** * PagAnimation: lifecycle of one embedded PAG animation

    A shallow embedding of [src/components/PagAnimation.tsx]: the effect
    body of the component (the async function [initPagAnimation], the
    interval callback it installs, and the cleanup function the effect
    returns), together with the properties of its life cycle.

    The async function is cut at its [await]s: every piece between two
    suspension points is one computation in a small monad that threads the
    component's mutable cells, can throw a JavaScript value, and records
    every write and every call to a collaborator (engine, network, timers,
    console) in the order they happen.  One activation is then a machine
    that the host drives: a promise settles, the interval fires, React
    runs the cleanup or detaches the canvas.

    The file has two parts: the program and the vocabulary to talk about
    it, then the lemmas and theorems. *)

From Stdlib Require Import ZArith QArith String List Lia.
From stdpp Require Import base list strings.

Local Open Scope Z_scope.

(** ** Values of the host language *)

(** What a [throw] or a rejected promise carries.  The catch clause of
    [initPagAnimation] only distinguishes instances of [Error] (from which
    it reads [message]) from everything else. *)
Inductive JsValue :=
| JsError (message : string)
| JsOther.

(** A settled promise. *)
Inductive Settled (A : Type) :=
| Resolved (a : A)
| Rejected (reason : JsValue).
Arguments Resolved {A} a.
Arguments Rejected {A} reason.

(** A number as [getProgress] may return it: a finite double, kept as the
    rational it denotes, or NaN. *)
Inductive JsNumber :=
| Num (q : Q)
| NaN.

(** ** The component's data *)

(** [PagAnimationProps] (lines 12-28); [className] only reaches the markup.
    [width] and [height] are whole numbers. *)
Record PagAnimationProps := {
  pagFile : string;
  width : Z;
  height : Z;
  autoPlay : bool;
  loop : bool;
}.

(** The canvas element behind [canvasRef]. *)
Record Canvas := {
  canvas_width : Z;
  canvas_height : Z;
}.

(** A view object handed out by [PAG.PAGView.init].  The engine's own
    fields are opaque; the component bolts one property onto the object,
    [_loopIntervalId] (line 123), undefined until then. *)
Record PAGViewObj := {
  loopIntervalId : option Z;
}.

(** Every cell the effect body reads or writes.  View objects live in
    [heap] and are referred to by address, because the local [pagView] of
    the initializer and [pagViewRef.current] alias one object. *)
Record State := {
  isMounted : bool;              (* line 35, the closure's flag *)
  canvasRef : option Canvas;     (* canvasRef.current *)
  pagViewRef : option nat;       (* pagViewRef.current *)
  isLoading : bool;              (* line 31 *)
  error : option string;         (* line 32 *)
  heap : list PAGViewObj;
  timers : list Z;               (* intervals that are currently armed *)
  nextTimer : Z;                 (* the id the next setInterval returns *)
}.

(** Everything observable that a piece of the effect body does, in order. *)
Inductive Effect :=
| SetIsLoading (b : bool)
| SetError (e : option string)
| WriteMounted (b : bool)
| WriteRef (r : option nat)
| WriteCanvasSize (w h : Z)
| WriteIntervalId (a : nat) (id : Z)
| CallPAGInit
| CallFetch (url : string)
| CallArrayBuffer
| CallLoad
| CallInit
| CallSetRepeatCount (a : nat) (count : Z)
| CallPlay (a : nat)
| CallGetProgress (a : nat)
| CallSetProgress (a : nat) (p : Q)
| CallDestroy (a : nat)
| CallSetInterval (id period : Z)
| CallClearInterval (id : Z)
| ConsoleWarn (msg : string)
| ConsoleError (msg : string) (v : JsValue)
| UnhandledRejection (v : JsValue).   (* a promise nobody handles rejects *)

(** ** The collaborators, as oracles

    The engine, the network and the view object are black boxes: a run is
    parameterised by how each of their calls answers. *)

(** The [Response] of [fetch] as far as lines 59-62 look at it. *)
Record Response := {
  ok : bool;
  statusText : string;
  arrayBuffer : Settled unit;
}.

(** Answers during one run of [initPagAnimation].  [PAGFile_load] and
    [PAGView_init] resolve to an object ([true]) or to null ([false]).
    The view may come without a [setRepeatCount] method (line 89 reaches
    for it through [any]): [has_setRepeatCount] says whether it is there,
    and [setRepeatCount], for a method that is there, is [Some v] when
    calling it throws [v].  Without the method the call expression throws
    a TypeError by itself and nothing reaches the view. *)
Record Engine := {
  PAGInit : Settled unit;
  fetch : Settled Response;
  PAGFile_load : Settled bool;
  PAGView_init : Settled bool;
  has_setRepeatCount : bool;
  setRepeatCount : option JsValue;
  play : Settled unit;
}.

(** Why a call of a method of the view did not return: the view has no
    such method, so that the call expression throws a TypeError before
    anything reaches the view, or the method itself threw. *)
Inductive CallFailure :=
| NoSuchMethod
| Threw (v : JsValue).

(** Answers of the view during one tick of the interval callback:
    [getProgress] is [None] when the method does not exist (the optional
    call then yields undefined), otherwise what calling it does;
    [setProgress] is [None] when the call returns, otherwise why it did
    not; [play_again] is [Some v] when [play()] throws [v] on the spot, and
    [None] when it returns its promise.  The callback drops that promise:
    what becomes of it is the host's business, see [RestartRejects]. *)
Record TickAnswers := {
  getProgress : option (JsValue + JsNumber);
  setProgress : option CallFailure;
  play_again : option JsValue;
}.

(** ** The monad: state, exceptions and a log of effects *)

Inductive Completion (A : Type) :=
| Normal (a : A)
| Throw (v : JsValue).
Arguments Normal {A} a.
Arguments Throw {A} v.

Definition M (A : Type) : Type := State -> Completion A * State * list Effect.

Definition ret {A} (a : A) : M A := fun s => (Normal a, s, []).

Definition bind {A B} (m : M A) (k : A -> M B) : M B := fun s =>
  match m s with
  | (Normal a, s1, t1) => let '(c, s2, t2) := k a s1 in (c, s2, t1 ++ t2)
  | (Throw v, s1, t1) => (Throw v, s1, t1)
  end.

Definition throw {A} (v : JsValue) : M A := fun s => (Throw v, s, []).

(** [try { m } catch (e) { h e }] *)
Definition try_catch {A} (m : M A) (h : JsValue -> M A) : M A := fun s =>
  match m s with
  | (Normal a, s1, t1) => (Normal a, s1, t1)
  | (Throw v, s1, t1) => let '(c, s2, t2) := h v s1 in (c, s2, t1 ++ t2)
  end.

Definition gets {A} (f : State -> A) : M A := fun s => (Normal (f s), s, []).

(** A write to a cell, logged. *)
Definition update (f : State -> State) (e : Effect) : M unit :=
  fun s => (Normal tt, f s, [e]).

(** A call to a collaborator, logged. *)
Definition call (e : Effect) : M unit := fun s => (Normal tt, s, [e]).

(** The sequencing notations [x ← m; k] and [m;; k] are those of stdpp. *)
#[global] Instance M_ret : MRet M := @ret.
#[global] Instance M_bind : MBind M := fun A B k m => bind m k.

(** The value of an awaited promise once it has settled. *)
Definition settle {A} (p : Settled A) : M A :=
  match p with
  | Resolved a => ret a
  | Rejected v => throw v
  end.

(** The outcome of a synchronous call that returns nothing. *)
Definition returns (r : option JsValue) : M unit :=
  match r with
  | None => ret tt
  | Some v => throw v
  end.

(** ** Writes to the cells *)

Definition with_isMounted (b : bool) (s : State) : State :=
  {| isMounted := b; canvasRef := canvasRef s; pagViewRef := pagViewRef s;
     isLoading := isLoading s; error := error s; heap := heap s;
     timers := timers s; nextTimer := nextTimer s |}.

Definition with_canvasRef (c : option Canvas) (s : State) : State :=
  {| isMounted := isMounted s; canvasRef := c; pagViewRef := pagViewRef s;
     isLoading := isLoading s; error := error s; heap := heap s;
     timers := timers s; nextTimer := nextTimer s |}.

Definition with_pagViewRef (r : option nat) (s : State) : State :=
  {| isMounted := isMounted s; canvasRef := canvasRef s; pagViewRef := r;
     isLoading := isLoading s; error := error s; heap := heap s;
     timers := timers s; nextTimer := nextTimer s |}.

Definition with_isLoading (b : bool) (s : State) : State :=
  {| isMounted := isMounted s; canvasRef := canvasRef s; pagViewRef := pagViewRef s;
     isLoading := b; error := error s; heap := heap s;
     timers := timers s; nextTimer := nextTimer s |}.

Definition with_error (e : option string) (s : State) : State :=
  {| isMounted := isMounted s; canvasRef := canvasRef s; pagViewRef := pagViewRef s;
     isLoading := isLoading s; error := e; heap := heap s;
     timers := timers s; nextTimer := nextTimer s |}.

Definition with_heap (h : list PAGViewObj) (s : State) : State :=
  {| isMounted := isMounted s; canvasRef := canvasRef s; pagViewRef := pagViewRef s;
     isLoading := isLoading s; error := error s; heap := h;
     timers := timers s; nextTimer := nextTimer s |}.

Definition with_timers (t : list Z) (n : Z) (s : State) : State :=
  {| isMounted := isMounted s; canvasRef := canvasRef s; pagViewRef := pagViewRef s;
     isLoading := isLoading s; error := error s; heap := heap s;
     timers := t; nextTimer := n |}.

Definition setIsLoading (b : bool) : M unit :=
  update (with_isLoading b) (SetIsLoading b).

Definition setError (e : option string) : M unit :=
  update (with_error e) (SetError e).

(** [pagViewRef.current = r] *)
Definition write_pagViewRef (r : option nat) : M unit :=
  update (with_pagViewRef r) (WriteRef r).

(** [isMounted = b] *)
Definition write_isMounted (b : bool) : M unit :=
  update (with_isMounted b) (WriteMounted b).

(** [width] and [height] of a canvas are [unsigned long] attributes that
    reflect the content attributes, with defaults 300 and 150.  A number
    assigned to one is first taken modulo 2^32; the element keeps it when
    it is at most 2147483647 and falls back to the default otherwise. *)
Definition to_unsigned_long (n : Z) : Z := n mod 4294967296.

Definition reflect_unsigned_long (default n : Z) : Z :=
  let u := to_unsigned_long n in
  if u <=? 2147483647 then u else default.

(** [canvas.width = w; canvas.height = h] on the element behind the ref:
    the element then reads back what its attributes made of [w] and [h]. *)
Definition write_canvas_size (w h : Z) : M unit :=
  update (with_canvasRef
            (Some {| canvas_width := reflect_unsigned_long 300 w;
                     canvas_height := reflect_unsigned_long 150 h |}))
         (WriteCanvasSize w h).

(** The object a resolved [PAG.PAGView.init] hands out: a new one, without
    the extra property. *)
Definition new_view : M nat := fun s =>
  (Normal (length (heap s)),
   with_heap (heap s ++ [{| loopIntervalId := None |}]) s, []).

(** [o._loopIntervalId] for the object at address [a] (undefined when the
    property was never set). *)
Definition get_loopIntervalId (s : State) (a : nat) : option Z :=
  match heap s !! a with
  | Some o => loopIntervalId o
  | None => None
  end.

Definition read_loopIntervalId (a : nat) : M (option Z) :=
  gets (fun s => get_loopIntervalId s a).

(** [o._loopIntervalId = id] *)
Definition write_loopIntervalId (a : nat) (id : Z) : M unit :=
  update (fun s => with_heap (<[a := {| loopIntervalId := Some id |}]> (heap s)) s)
         (WriteIntervalId a id).

(** [setInterval(callback, period)]: arms a timer and returns its id. *)
Definition setInterval (period : Z) : M Z := fun s =>
  let id := nextTimer s in
  (Normal id, with_timers (id :: timers s) (id + 1) s, [CallSetInterval id period]).

(** [clearInterval(id)] *)
Definition clearInterval (id : Z) : M unit :=
  update (fun s => with_timers (filter (fun t => t ≠ id) (timers s)) (nextTimer s) s)
         (CallClearInterval id).

(** ** [initPagAnimation], cut at its awaits *)

(** Where the async function is suspended; each point keeps the locals
    the rest of the function still reads. *)
Inductive Pc :=
| AtPAGInit                       (* line 47 *)
| AtFetch                         (* line 58 *)
| AtArrayBuffer (response : Response)   (* line 62 *)
| AtLoad                          (* line 65 *)
| AtInit                          (* line 78 *)
| AtPlay (pagView : nat)          (* line 99 *)
| Finished.

(** Line 133: [err instanceof Error ? err.message : "Unknown error occurred"] *)
Definition message_of (err : JsValue) : string :=
  match err with
  | JsError msg => msg
  | JsOther => "Unknown error occurred"
  end.

(** Lines 129-137, the catch clause around the whole body. *)
Definition on_error (err : JsValue) : M Pc :=
  call (ConsoleError "PAG animation error:" err);;
  mounted ← gets isMounted;
  (if mounted : bool
   then setError (Some (message_of err));; setIsLoading false
   else ret tt);;
  ret Finished.

(** The literal [0.99] of line 112: the double nearest to 99/100. *)
Definition restart_threshold : Q := 4458563631096791 # 4503599627370496.

Section Activation.

Variable props : PagAnimationProps.
Variable engine : Engine.

(** Lines 39-47, up to the first await. *)
Definition from_entry : M Pc :=
  setIsLoading true;;
  setError None;;
  canvas ← gets canvasRef;
  match canvas with
  | None => throw (JsError "Canvas element not found")
  | Some _ => call CallPAGInit;; ret AtPAGInit
  end.

(** Lines 47-58: the engine is there, ask for the file. *)
Definition from_PAGInit : M Pc :=
  settle (PAGInit engine);;
  call (CallFetch (pagFile props));;
  ret AtFetch.

(** Lines 58-62 *)
Definition from_fetch : M Pc :=
  response ← settle (fetch engine);
  if ok response
  then call CallArrayBuffer;; ret (AtArrayBuffer response)
  else throw (JsError ("Failed to load PAG file: " +:+ statusText response)).

(** Lines 62-65 *)
Definition from_arrayBuffer (response : Response) : M Pc :=
  settle (arrayBuffer response);;
  call CallLoad;;
  ret AtLoad.

(** Lines 65-78.  Writing through a null [canvasRef.current] is the
    host's TypeError. *)
Definition from_load : M Pc :=
  pagFileInstance ← settle (PAGFile_load engine);
  if negb pagFileInstance then throw (JsError "Failed to load PAG file") else
  mounted ← gets isMounted;
  if negb mounted then ret Finished else
  canvas ← gets canvasRef;
  match canvas with
  | None => throw (JsError "Cannot set properties of null (setting 'width')")
  | Some _ =>
      write_canvas_size (width props) (height props);;
      call CallInit;;
      ret AtInit
  end.

(** Lines 78-99 *)
Definition from_init : M Pc :=
  view ← settle (PAGView_init engine);
  if negb view then throw (JsError "Failed to create PAG view") else
  pagView ← new_view;
  write_pagViewRef (Some pagView);;
  (if loop props
   then try_catch
          (if has_setRepeatCount engine
           then call (CallSetRepeatCount pagView (-1));;
                returns (setRepeatCount engine)
           else throw (JsError "pagView.setRepeatCount is not a function"))
          (fun _ =>
             call (ConsoleWarn "setRepeatCount not available, using alternative approach"))
   else ret tt);;
  if autoPlay props
  then call (CallPlay pagView);; ret (AtPlay pagView)
  else setIsLoading false;; ret Finished.

(** Lines 99-128 *)
Definition from_play (pagView : nat) : M Pc :=
  settle (play engine);;
  (if loop props
   then canvas ← gets canvasRef;
        match canvas with
        | Some _ =>
            intervalId ← setInterval 100;
            write_loopIntervalId pagView intervalId
        | None => ret tt
        end
   else ret tt);;
  setIsLoading false;;
  ret Finished.

(** The first piece of [initPagAnimation()] (line 140), inside its try. *)
Definition initPagAnimation : M Pc :=
  try_catch from_entry on_error.

(** The continuation that runs when the awaited promise settles. *)
Definition resume (pc : Pc) : M Pc :=
  match pc with
  | AtPAGInit => try_catch from_PAGInit on_error
  | AtFetch => try_catch from_fetch on_error
  | AtArrayBuffer response => try_catch (from_arrayBuffer response) on_error
  | AtLoad => try_catch from_load on_error
  | AtInit => try_catch from_init on_error
  | AtPlay pagView => try_catch (from_play pagView) on_error
  | Finished => ret Finished
  end.

(** Lines 35 and 140: the effect body declares the flag and starts the
    initializer. *)
Definition useEffect_body : M Pc :=
  fun s => initPagAnimation (with_isMounted true s).

End Activation.

(** ** The interval callback (lines 106-120) *)

(** [getProgress?.() || 0]: undefined, NaN and 0 are falsy. *)
Definition or_zero (v : option JsNumber) : Q :=
  match v with
  | Some (Num q) => q
  | Some NaN | None => 0%Q
  end.

Definition poll_progress (a : nat) (answers : TickAnswers) : M Q :=
  match getProgress answers with
  | None => ret (or_zero None)
  | Some r =>
      call (CallGetProgress a);;
      match r with
      | inl v => throw v
      | inr n => ret (or_zero (Some n))
      end
  end.

(** [view.setProgress(0)] through [any]: without the method the call
    expression throws before anything reaches the view. *)
Definition reset_progress (a : nat) (answers : TickAnswers) : M unit :=
  match setProgress answers with
  | Some NoSuchMethod =>
      throw (JsError "pagViewRef.current.setProgress is not a function")
  | Some (Threw v) => call (CallSetProgress a 0%Q);; throw v
  | None => call (CallSetProgress a 0%Q)
  end.

Definition interval_callback (answers : TickAnswers) : M unit :=
  current ← gets pagViewRef;
  mounted ← gets isMounted;
  match current with
  | Some a =>
      if mounted : bool then
        try_catch
          (progress ← poll_progress a answers;
           if Qle_bool restart_threshold progress
           then reset_progress a answers;;
                call (CallPlay a);;
                returns (play_again answers)
           else ret tt)
          (fun _ => ret tt)
      else ret tt
  | None => ret tt
  end.

(** ** The cleanup function of the effect (lines 142-157) *)

(** [if (intervalId)]: undefined and 0 are falsy. *)
Definition truthy_id (intervalId : option Z) : option Z :=
  match intervalId with
  | Some id => if Z.eqb id 0 then None else Some id
  | None => None
  end.

(** [destroy] is [Some v] when the engine's [destroy()] throws [v]. *)
Definition cleanup (destroy : option JsValue) : M unit :=
  write_isMounted false;;
  current ← gets pagViewRef;
  match current with
  | Some a =>
      try_catch
        (intervalId ← read_loopIntervalId a;
         match truthy_id intervalId with
         | Some id => clearInterval id
         | None => ret tt
         end;;
         call (CallDestroy a);;
         returns destroy)
        (fun err => call (ConsoleWarn "Error destroying PAG view:"));;
      write_pagViewRef None
  | None => ret tt
  end.

(** ** What the host sees *)

(** The Presentation State read off the two hooks of lines 31-32: an error
    message when [error] is not null, otherwise loading or ready. *)
Inductive Presentation :=
| Loading
| Ready
| Error (message : string).

Definition presentation (s : State) : Presentation :=
  match error s with
  | Some msg => Error msg
  | None => if isLoading s then Loading else Ready
  end.

(** Lines 179-218, the markup: the error pane, or the container with the
    canvas and, while loading, the overlay.  [if (error)] is a truthiness
    test, so an empty message shows the container. *)
Inductive Markup :=
| PagError (text : string)
| PagContainer (overlay : bool).

Definition render (s : State) : Markup :=
  match error s with
  | Some msg =>
      if String.eqb msg "" then PagContainer (isLoading s)
      else PagError ("Failed to load animation: " +:+ msg)
  | None => PagContainer (isLoading s)
  end.

(** The Session of an activation is the view behind [pagViewRef]; its
    watchdog exists when the view carries an interval id that is armed. *)
Definition watchdog (s : State) : option Z :=
  match pagViewRef s with
  | Some a =>
      match get_loopIntervalId s a with
      | Some id => if bool_decide (id ∈ timers s) then Some id else None
      | None => None
      end
  | None => None
  end.

(** ** One activation as a machine

    Between two pieces of the effect body anything the host schedules can
    happen: the awaited promise settles and the async function resumes,
    React runs the cleanup, an armed interval fires, or React detaches the
    canvas from its ref.  And the promise that a [play()] of the interval
    callback returned may reject: line 114 neither awaits it nor attaches
    a handler, so the rejection goes to the host unhandled.  (Such a
    rejection has a place in a schedule after the tick that made the
    call; what is proved of every schedule is proved of these.) *)

Record Machine := {
  pc : Pc;
  st : State;
}.

Inductive Event :=
| Settles
| Cleanup (destroy : option JsValue)
| Tick (id : Z) (answers : TickAnswers)
| Detach
| RestartRejects (v : JsValue).

Section Run.

Variable props : PagAnimationProps.
Variable engine : Engine.

Definition step (ev : Event) (m : Machine) : Completion Pc * State * list Effect :=
  match ev with
  | Settles => resume props engine (pc m) (st m)
  | Cleanup destroy => (cleanup destroy;; ret (pc m)) (st m)
  | Tick id answers =>
      if bool_decide (id ∈ timers (st m))
      then (interval_callback answers;; ret (pc m)) (st m)
      else (Normal (pc m), st m, [])
  | Detach => (Normal (pc m), with_canvasRef None (st m), [])
  | RestartRejects v => (Normal (pc m), st m, [UnhandledRejection v])
  end.

(** Runs a schedule; an exception that escapes a piece stops the run and
    reaches the host. *)
Fixpoint exec (evs : list Event) (m : Machine) : Completion Machine * list Effect :=
  match evs with
  | [] => (Normal m, [])
  | ev :: evs' =>
      match step ev m with
      | (Normal pc', s', t) =>
          let '(c, t') := exec evs' {| pc := pc'; st := s' |} in (c, t ++ t')
      | (Throw v, _, t) => (Throw v, t)
      end
  end.

(** The effect body followed by a schedule. *)
Definition run (s0 : State) (evs : list Event) : Completion Machine * list Effect :=
  match useEffect_body s0 with
  | (Normal pc0, s, t) =>
      let '(c, t') := exec evs {| pc := pc0; st := s |} in (c, t ++ t')
  | (Throw v, _, t) => (Throw v, t)
  end.

End Run.

(** The component right after its first render: the hooks at their initial
    values (lines 30-32), no view, no timer. *)
Definition first_render (canvas : option Canvas) : State :=
  {| isMounted := false; canvasRef := canvas; pagViewRef := None;
     isLoading := true; error := None; heap := []; timers := []; nextTimer := 1 |}.

(** A run in which nothing happens but [n] awaited promises settling,
    started in any state of the component. *)
Definition live_run (props : PagAnimationProps) (engine : Engine)
    (s0 : State) (n : nat) : Completion Machine * list Effect :=
  run props engine s0 (repeat Settles n).

(** [initPagAnimation] has six awaits (lines 47, 58, 62, 65, 78, 99): after
    that many promises have settled nothing of it is left to run. *)
Definition awaits : nat := 6.

(** ** Which stage of a run fails

    The first stage of the bring-up sequence that fails, given the answers
    of the collaborators; later answers are never asked for. *)
Inductive Failure :=
| NoCanvas
| BootstrapRejected (v : JsValue)
| FetchRejected (v : JsValue)
| FetchNotOk (status : string)
| BodyRejected (v : JsValue)
| DecodeRejected (v : JsValue)
| DecodeNull
| BindRejected (v : JsValue)
| BindNull
| PlayRejected (v : JsValue).

Definition failure (props : PagAnimationProps) (engine : Engine)
    (canvas : option Canvas) : option Failure :=
  match canvas with
  | None => Some NoCanvas
  | Some _ =>
  match PAGInit engine with
  | Rejected v => Some (BootstrapRejected v)
  | Resolved _ =>
  match fetch engine with
  | Rejected v => Some (FetchRejected v)
  | Resolved response =>
  if negb (ok response) then Some (FetchNotOk (statusText response)) else
  match arrayBuffer response with
  | Rejected v => Some (BodyRejected v)
  | Resolved _ =>
  match PAGFile_load engine with
  | Rejected v => Some (DecodeRejected v)
  | Resolved false => Some DecodeNull
  | Resolved true =>
  match PAGView_init engine with
  | Rejected v => Some (BindRejected v)
  | Resolved false => Some BindNull
  | Resolved true =>
  if autoPlay props then
    match play engine with
    | Rejected v => Some (PlayRejected v)
    | Resolved _ => None
    end
  else None
  end end end end end end.

(** Failures of the stages that come before a view exists. *)
Definition before_session (f : Failure) : bool :=
  match f with
  | PlayRejected _ => false
  | _ => true
  end.

(** The message a failure is reported with: the message of a thrown
    [Error], a fixed text for anything else that was thrown, and the
    initializer's own texts for the failures it detects itself. *)
Definition thrown_message (v : JsValue) : string :=
  match v with
  | JsError msg => msg
  | JsOther => "Unknown error occurred"
  end.

Definition failure_message (f : Failure) : string :=
  match f with
  | NoCanvas => "Canvas element not found"
  | FetchNotOk status => "Failed to load PAG file: " +:+ status
  | DecodeNull => "Failed to load PAG file"
  | BindNull => "Failed to create PAG view"
  | BootstrapRejected v | FetchRejected v | BodyRejected v
  | DecodeRejected v | BindRejected v | PlayRejected v => thrown_message v
  end.

(** ** What a cleanup does, as a function and as a trace *)

(** What a cleanup leaves behind: the flag down, the ref cleared, and the
    view's interval, if it had one, no longer armed. *)
Definition after_cleanup (s : State) : State :=
  with_pagViewRef None
    match pagViewRef s with
    | Some a =>
        match truthy_id (get_loopIntervalId s a) with
        | Some id =>
            with_timers (filter (fun t => t ≠ id) (timers s)) (nextTimer s)
              (with_isMounted false s)
        | None => with_isMounted false s
        end
    | None => with_isMounted false s
    end.

(** The order in which a cleanup does things. *)
Definition cleanup_trace (destroy : option JsValue) (s : State) : list Effect :=
  WriteMounted false ::
  match pagViewRef s with
  | None => []
  | Some a =>
      match truthy_id (get_loopIntervalId s a) with
      | Some id => [CallClearInterval id]
      | None => []
      end ++
      [CallDestroy a] ++
      match destroy with
      | Some _ => [ConsoleWarn "Error destroying PAG view:"]
      | None => []
      end ++
      [WriteRef None]
  end.


Definition is_ready (p : Presentation) : bool :=
  match p with
  | Ready => true
  | _ => false
  end.

(** The engine with [setRepeatCount] working, everything else as it is. *)
Definition repeat_supported (engine : Engine) : Engine :=
  {| PAGInit := PAGInit engine; fetch := fetch engine;
     PAGFile_load := PAGFile_load engine; PAGView_init := PAGView_init engine;
     has_setRepeatCount := true; setRepeatCount := None;
     play := play engine |}.

(** ** Scenarios *)

Definition a_bin (ap lp : bool) : PagAnimationProps :=
  {| pagFile := "a.bin"; width := 300; height := 300;
     autoPlay := ap; loop := lp |}.

(** A canvas as the browser creates it, 300 by 150. *)
Definition a_canvas : Canvas := {| canvas_width := 300; canvas_height := 150 |}.

Definition response_200 : Response :=
  {| ok := true; statusText := "OK"; arrayBuffer := Resolved tt |}.

Definition response_404 : Response :=
  {| ok := false; statusText := "Not Found"; arrayBuffer := Resolved tt |}.

(** Every collaborator answers well. *)
Definition all_fine : Engine :=
  {| PAGInit := Resolved tt; fetch := Resolved response_200;
     PAGFile_load := Resolved true; PAGView_init := Resolved true;
     has_setRepeatCount := true; setRepeatCount := None;
     play := Resolved tt |}.

(** The file is not there. *)
Definition file_missing : Engine :=
  {| PAGInit := Resolved tt; fetch := Resolved response_404;
     PAGFile_load := Resolved true; PAGView_init := Resolved true;
     has_setRepeatCount := true; setRepeatCount := None;
     play := Resolved tt |}.

(** The view binds, but [play()] rejects. *)
Definition play_rejects : Engine :=
  {| PAGInit := Resolved tt; fetch := Resolved response_200;
     PAGFile_load := Resolved true; PAGView_init := Resolved true;
     has_setRepeatCount := true; setRepeatCount := None;
     play := Rejected (JsError "play failed") |}.

(** The view has no [setRepeatCount]. *)
Definition repeat_unsupported : Engine :=
  {| PAGInit := Resolved tt; fetch := Resolved response_200;
     PAGFile_load := Resolved true; PAGView_init := Resolved true;
     has_setRepeatCount := false;
     setRepeatCount := Some (JsError "pagView.setRepeatCount is not a function");
     play := Resolved tt |}.

(** A view that reports a progress of 0.995 and restarts when asked:
    [setProgress] returns and [play()] returns its promise. *)
Definition at_the_end : TickAnswers :=
  {| getProgress := Some (inr (Num (995 # 1000)));
     setProgress := None; play_again := None |}.

(** The points at which the initializer is suspended before the check of
    [isMounted] on line 70. *)
Definition before_mount_check (p : Pc) : bool :=
  match p with
  | AtPAGInit | AtFetch | AtArrayBuffer _ | AtLoad => true
  | AtInit | AtPlay _ | Finished => false
  end.

(** Writes to the component's cells, as opposed to calls and logging. *)
Definition is_write (e : Effect) : bool :=
  match e with
  | SetIsLoading _ | SetError _ | WriteMounted _ | WriteRef _
  | WriteCanvasSize _ _ | WriteIntervalId _ _
  | CallSetInterval _ _ | CallClearInterval _ => true
  | _ => false
  end.

(** ** Schedules that do not tear the activation down *)

Definition keeps_mounted (ev : Event) : bool :=
  match ev with
  | Cleanup _ => false
  | _ => true
  end.

(** How many of the events are settled promises. *)
Fixpoint settled (evs : list Event) : nat :=
  match evs with
  | [] => 0
  | Settles :: evs' => S (settled evs')
  | _ :: evs' => settled evs'
  end.

(** How many awaits the initializer still has in front of it, at most. *)
Definition rank (p : Pc) : nat :=
  match p with
  | AtPAGInit => 6
  | AtFetch => 5
  | AtArrayBuffer _ => 4
  | AtLoad => 3
  | AtInit => 2
  | AtPlay _ => 1
  | Finished => 0
  end.

(** What holds of a valid activation between two pieces of its effect
    body: the flag is up, and the hooks say loading exactly while the
    initializer is in flight. *)
Definition valid_activation (m : Machine) : Prop :=
  isMounted (st m) = true
  ∧ match pc m with
    | Finished => isLoading (st m) = false
    | _ => isLoading (st m) = true ∧ error (st m) = None
    end.

(** * The rest of the component *)

(** ** The resource locator handed to [PAGInit] (lines 48-54) *)

(** [s.endsWith(searchString)]: the last characters of [s], as many as
    [searchString] has, are [searchString]; never so when [s] is the
    shorter one. *)
Definition endsWith (s searchString : string) : bool :=
  let len := String.length s in
  let searchLength := String.length searchString in
  if (len <? searchLength)%nat then false
  else String.eqb (substring (len - searchLength) searchLength s) searchString.

(** [locateFile]: a [.wasm] file is looked up at the root of the public
    directory, anything else where the engine asked for it. *)
Definition locateFile (path : string) : string :=
  if endsWith path ".wasm" then "/" +:+ path else path.

(** ** The props as the caller writes them (lines 21-28)

    Every prop but [pagFile] may be left out; destructuring puts the
    default in its place. *)
Record Attributes := {
  attr_pagFile : string;
  attr_width : option Z;
  attr_height : option Z;
  attr_autoPlay : option bool;
  attr_loop : option bool;
}.

Definition destructure (a : Attributes) : PagAnimationProps :=
  {| pagFile := attr_pagFile a;
     width := default 300 (attr_width a);
     height := default 300 (attr_height a);
     autoPlay := default true (attr_autoPlay a);
     loop := default true (attr_loop a) |}.

(** ** Kinds of effects *)

(** The calls by which the initializer brings a view up and arms its
    interval.  ([play] is left out: the interval callback calls it too.) *)
Definition is_bringup (e : Effect) : bool :=
  match e with
  | CallPAGInit | CallFetch _ | CallArrayBuffer | CallLoad | CallInit
  | CallSetRepeatCount _ _ | CallSetInterval _ _ => true
  | _ => false
  end.

(** The bring-up calls of one activation, in the order of the source:
    lines 47, 58, 62, 65, 78, 89 and 106.  The view is the next object of
    the heap, the interval the next id.  Line 89 is a call only when the
    view has the method. *)
Definition bringup_calls (props : PagAnimationProps) (engine : Engine)
    (s0 : State) : list Effect :=
  [CallPAGInit; CallFetch (pagFile props); CallArrayBuffer; CallLoad; CallInit]
  ++ (if loop props && has_setRepeatCount engine
      then [CallSetRepeatCount (length (heap s0)) (-1)] else [])
  ++ (if autoPlay props && loop props
      then [CallSetInterval (nextTimer s0) 100] else []).

(** What the interval callback does to the view. *)
Definition is_poll (e : Effect) : bool :=
  match e with
  | CallGetProgress _ | CallSetProgress _ _ => true
  | _ => false
  end.

(** The calls that give a resource back. *)
Definition is_release (e : Effect) : bool :=
  match e with
  | CallDestroy _ | CallClearInterval _ => true
  | _ => false
  end.

Definition is_play (e : Effect) : bool :=
  match e with
  | CallPlay _ => true
  | _ => false
  end.

Definition is_setInterval (e : Effect) : bool :=
  match e with
  | CallSetInterval _ _ => true
  | _ => false
  end.

(** ** One activation after the other (lines 34-158)

    When a dependency of the effect changes, React runs the cleanup of
    the effect and then its body again, with the new props.  Here every
    activation is left to finish its initializer before it is cleaned
    up, so that no continuation of an old closure is still pending. *)
Record Lifetime := {
  lt_props : PagAnimationProps;
  lt_engine : Engine;
  lt_canvas : option Canvas;        (* what React has behind canvasRef *)
  lt_destroy : option JsValue;      (* how destroy() answers at the end *)
}.

(** The state in which an activation starts. *)
Definition enter (l : Lifetime) (s : State) : State :=
  with_canvasRef (lt_canvas l) s.

(** An activation from its effect body to the end of its cleanup. *)
Definition one_lifetime (l : Lifetime) (s : State) : State * list Effect :=
  match run (lt_props l) (lt_engine l) (enter l s)
            (repeat Settles awaits ++ [Cleanup (lt_destroy l)]) with
  | (Normal m, t) => (st m, t)
  | (Throw _, t) => (s, t)
  end.

Fixpoint lifetimes (ls : list Lifetime) (s : State) : State * list Effect :=
  match ls with
  | [] => (s, [])
  | l :: ls' =>
      let '(s1, t1) := one_lifetime l s in
      let '(s2, t2) := lifetimes ls' s1 in
      (s2, t1 ++ t2)
  end.

(** Between two activations: no view behind the ref, no interval armed,
    and ids still to hand out that are positive, as [setInterval]'s are. *)
Definition idle (s : State) : Prop :=
  pagViewRef s = None ∧ timers s = [] ∧ 0 < nextTimer s.

(** A failure being reported to the host: [setError] with a message. *)
Definition is_report (e : Effect) : bool :=
  match e with
  | SetError (Some _) => true
  | _ => false
  end.

Definition any_event (ev : Event) : bool := true.



(** The bring-up calls the initializer has made when it is suspended at
    [p], or [None] once it has finished (then: some of them, in order). *)
Definition bringup_so_far (props : PagAnimationProps) (engine : Engine)
    (p : Pc) : option (list Effect) :=
  match p with
  | AtPAGInit => Some [CallPAGInit]
  | AtFetch => Some [CallPAGInit; CallFetch (pagFile props)]
  | AtArrayBuffer _ =>
      Some [CallPAGInit; CallFetch (pagFile props); CallArrayBuffer]
  | AtLoad =>
      Some [CallPAGInit; CallFetch (pagFile props); CallArrayBuffer; CallLoad]
  | AtInit =>
      Some [CallPAGInit; CallFetch (pagFile props); CallArrayBuffer; CallLoad;
            CallInit]
  | AtPlay a =>
      Some ([CallPAGInit; CallFetch (pagFile props); CallArrayBuffer; CallLoad;
             CallInit]
            ++ (if loop props && has_setRepeatCount engine
                then [CallSetRepeatCount a (-1)] else []))
  | Finished => None
  end.

(** What the bring-up of an activation that started in [s0] has come to:
    the calls made so far are the ones the source makes up to this point,
    and the view and the interval still to come are the next ones. *)
Definition bringup_in_order (props : PagAnimationProps) (engine : Engine)
    (s0 : State) (m : Machine) (t : list Effect) : Prop :=
  match bringup_so_far props engine (pc m) with
  | Some calls =>
      List.filter is_bringup t = calls
      ∧ nextTimer (st m) = nextTimer s0
      ∧ match pc m with
        | AtPlay a => a = length (heap s0) ∧ autoPlay props = true
        | _ => length (heap (st m)) = length (heap s0)
        end
  | None => List.filter is_bringup t `prefix_of` bringup_calls props engine s0
  end.

(** The failures that end the initializer before it sizes the canvas
    (lines 73-75). *)
Definition before_sizing (f : Failure) : bool :=
  match f with
  | NoCanvas | BootstrapRejected _ | FetchRejected _ | FetchNotOk _
  | BodyRejected _ | DecodeRejected _ | DecodeNull => true
  | BindRejected _ | BindNull | PlayRejected _ => false
  end.

(** The size the canvas has once lines 74-75 have assigned the requested
    one: what the element makes of the two numbers. *)
Definition requested_size (a : Attributes) : Canvas :=
  {| canvas_width := reflect_unsigned_long 300 (default 300 (attr_width a));
     canvas_height := reflect_unsigned_long 150 (default 300 (attr_height a)) |}.

(** The sizes a canvas keeps as they are. *)
Definition keeps_size (n : Z) : Prop := 0 ≤ n ≤ 2147483647.

(** A run in which the canvas is detached from its ref after [k] promises
    have settled, and that goes on to the end. *)
Definition detached_after (k : nat) : list Event :=
  repeat Settles k ++ Detach :: repeat Settles (awaits - k).

Definition is_bind (e : Effect) : bool :=
  match e with
  | CallInit => true
  | _ => false
  end.

Definition is_install (e : Effect) : bool :=
  match e with
  | WriteRef (Some _) => true
  | _ => false
  end.

Definition is_destroy (e : Effect) : bool :=
  match e with
  | CallDestroy _ => true
  | _ => false
  end.

Definition is_clearInterval (e : Effect) : bool :=
  match e with
  | CallClearInterval _ => true
  | _ => false
  end.

(** How often an effect of a kind occurs in a trace. *)
Definition occurrences (kind : Effect → bool) (t : list Effect) : nat :=
  length (List.filter kind t).

(** The armed intervals are exactly the watchdog of the installed view,
    if there is one. *)
Definition only_the_watchdog (s : State) : Prop :=
  timers s = match watchdog s with
             | Some id => [id]
             | None => []
             end.

(** How many awaited promises settle well before a failure shows. *)
Definition stage_of (f : Failure) : nat :=
  match f with
  | NoCanvas | BootstrapRejected _ => 0
  | FetchRejected _ | FetchNotOk _ => 1
  | BodyRejected _ => 2
  | DecodeRejected _ | DecodeNull => 3
  | BindRejected _ | BindNull => 4
  | PlayRejected _ => 5
  end.

(** A run in which the cleanup comes after [k] promises have settled, and
    in which the promises still pending settle afterwards. *)
Definition cleanup_after (destroy : option JsValue) (k : nat) : list Event :=
  repeat Settles k ++ Cleanup destroy :: repeat Settles (awaits - k).

Definition is_console_error (e : Effect) : bool :=
  match e with
  | ConsoleError _ _ => true
  | _ => false
  end.

(** A schedule with its ticks taken out. *)
Definition without_ticks (evs : list Event) : list Event :=
  List.filter (fun ev => match ev with Tick _ _ => false | _ => true end) evs.

(** ** More scenarios *)

(** The component torn down while [PAG.PAGView.init] is pending. *)
Definition torn_down_at_bind : Machine :=
  {| pc := AtInit;
     st := with_isMounted false (first_render (Some a_canvas)) |}.

(** The caller gives the file and nothing else. *)
Definition only_the_file : Attributes :=
  {| attr_pagFile := "a.bin"; attr_width := None; attr_height := None;
     attr_autoPlay := None; attr_loop := None |}.

(** The fetch is rejected: the network is down. *)
Definition network_down : Engine :=
  {| PAGInit := Resolved tt; fetch := Rejected (JsError "Failed to fetch");
     PAGFile_load := Resolved true; PAGView_init := Resolved true;
     has_setRepeatCount := true; setRepeatCount := None;
     play := Resolved tt |}.
(** ** Basic facts about runs *)

Lemma exec_app props engine evs1 evs2 m :
  exec props engine (evs1 ++ evs2) m =
  match exec props engine evs1 m with
  | (Normal m1, t1) =>
      let '(c, t2) := exec props engine evs2 m1 in (c, t1 ++ t2)
  | (Throw v, t1) => (Throw v, t1)
  end.
Proof.
  revert m. induction evs1 as [|ev evs1 IH]; intros m; simpl.
  - by destruct (exec props engine evs2 m).
  - destruct (step props engine ev m) as [[[pc1|v] s1] t1]; [|done].
    rewrite IH.
    destruct (exec props engine evs1 _) as [[m1|v] t2]; [|done].
    destruct (exec props engine evs2 m1) as [c t3].
    by rewrite app_assoc.
Qed.

(** Once the initializer has finished, further settled promises are not
    its business. *)
Lemma exec_settles_finished props engine k s :
  exec props engine (repeat Settles k) {| pc := Finished; st := s |} =
  (Normal {| pc := Finished; st := s |}, []).
Proof.
  induction k as [|k IH]; [done|].
  simpl. by rewrite IH.
Qed.

Lemma run_app props engine s0 evs1 evs2 :
  run props engine s0 (evs1 ++ evs2) =
  match run props engine s0 evs1 with
  | (Normal m1, t1) =>
      let '(c, t2) := exec props engine evs2 m1 in (c, t1 ++ t2)
  | (Throw v, t1) => (Throw v, t1)
  end.
Proof.
  unfold run. destruct (useEffect_body s0) as [[[pc0|v] s] t]; [|done].
  rewrite exec_app.
  destruct (exec props engine evs1 _) as [[m1|v] t1]; [|done].
  destruct (exec props engine evs2 m1) as [c t2].
  by rewrite app_assoc.
Qed.

(** Symbolic execution of a run: unfold the program, the monad and the
    accessors, but neither the operations on the heap and the timers nor
    the concatenation of traces. *)
Ltac run_red :=
  cbv beta iota zeta delta
    [live_run run exec step resume useEffect_body initPagAnimation awaits
     from_entry from_PAGInit from_fetch from_arrayBuffer from_load from_init
     from_play on_error message_of
     mbind M_bind mret M_ret bind ret throw try_catch gets update call
     settle returns setIsLoading setError write_pagViewRef write_isMounted
     write_canvas_size new_view setInterval write_loopIntervalId
     with_isMounted with_canvasRef with_pagViewRef with_isLoading with_error
     with_heap with_timers
     isMounted canvasRef pagViewRef isLoading error heap timers nextTimer
     pagFile width height autoPlay loop
     PAGInit fetch PAGFile_load PAGView_init has_setRepeatCount setRepeatCount play
     repeat_supported
     ok statusText arrayBuffer pc st repeat negb andb
     presentation is_ready failure failure_message thrown_message
     before_session String.append].

(** Case analysis along the path a run takes: execute, and split on the
    next answer the run depends on. *)
Ltac explore :=
  repeat (run_red;
          match goal with
          | |- context [match ?x with _ => _ end] => is_var x; destruct x
          end);
  run_red.

Ltac open_run props engine s0 :=
  let file := fresh "file" in
  let w := fresh "w" in
  let h := fresh "h" in
  let ap := fresh "ap" in
  let lp := fresh "lp" in
  destruct props as [file w h ap lp];
  let i := fresh "i" in
  let f := fresh "f" in
  let l := fresh "l" in
  let v := fresh "v" in
  let hr := fresh "hr" in
  let r := fresh "r" in
  let p := fresh "p" in
  destruct engine as [i f l v hr r p];
  let mo := fresh "mo" in
  let cv := fresh "cv" in
  let pv := fresh "pv" in
  let il := fresh "il" in
  let er := fresh "er" in
  let hp := fresh "hp" in
  let tm := fresh "tm" in
  let nt := fresh "nt" in
  destruct s0 as [mo cv pv il er hp tm nt].

(** The view a bind hands out sits at the end of the heap, and so does
    the id the initializer writes into it. *)
Lemma lookup_new_view (hp : list PAGViewObj) o :
  (hp ++ [o]) !! length hp = Some o.
Proof. by apply list_lookup_middle. Qed.

Lemma lookup_tagged_view (hp : list PAGViewObj) o o' :
  <[length hp := o']> (hp ++ [o]) !! length hp = Some o'.
Proof. apply list_lookup_insert_eq. rewrite length_app. simpl. lia. Qed.

(** Reads the watchdog off a state in which the run has put it together. *)
Ltac read_watchdog :=
  unfold watchdog, get_loopIntervalId;
  cbn [pagViewRef heap timers loopIntervalId];
  rewrite ?lookup_tagged_view, ?lookup_new_view;
  cbn [loopIntervalId];
  rewrite ?bool_decide_eq_true_2 by apply list_elem_of_here;
  try reflexivity.

(** Closes what is left of a path: the run is a value; read the facts
    off it. *)
Ltac read_off :=
  try done;
  try (do 2 eexists; split; [reflexivity|]; cbn;
       repeat split; intros;
       first [ done | congruence | by read_watchdog
             | match goal with
               | H : ∃ _, _ |- _ => destruct H as [? ?]; congruence
               end ]).

(** Every run of the initializer is over after [awaits] settled promises,
    and no exception escapes it. *)
Lemma finished_after_awaits props engine s0 :
  ∃ s t, live_run props engine s0 awaits =
         (Normal {| pc := Finished; st := s |}, t).
Proof.
  open_run props engine s0.
  explore; eauto.
Qed.

(** From then on the machine does not move. *)
Lemma live_run_stable props engine s0 k :
  (awaits ≤ k)%nat →
  live_run props engine s0 k = live_run props engine s0 awaits.
Proof.
  intros Hk. unfold live_run.
  replace k with (awaits + (k - awaits))%nat by lia.
  rewrite repeat_app, run_app.
  destruct (finished_after_awaits props engine s0) as (s & t & Hrun).
  unfold live_run in Hrun. rewrite Hrun, exec_settles_finished.
  by rewrite app_nil_r.
Qed.

(** Unfolds the monad down to functions on states. *)
Ltac unfold_m :=
  unfold mbind, M_bind, mret, M_ret, bind, ret, throw, try_catch, gets,
    update, call, settle, returns, setIsLoading, setError, write_pagViewRef,
    write_isMounted, write_canvas_size, read_loopIntervalId,
    write_loopIntervalId, clearInterval in *.

(** ** The cleanup function *)

Lemma cleanup_run destroy s :
  cleanup destroy s = (Normal tt, after_cleanup s, cleanup_trace destroy s).
Proof.
  unfold cleanup, after_cleanup, cleanup_trace. unfold_m.
  destruct s as [mo cv [a|] il er hp tm nt]; simpl; [|done].
  destruct (truthy_id _); destruct destroy; simpl; done.
Qed.

Lemma after_cleanup_cleared s :
  isMounted (after_cleanup s) = false ∧ pagViewRef (after_cleanup s) = None.
Proof.
  unfold after_cleanup.
  destruct s as [mo cv [a|] il er hp tm nt]; simpl; [|done].
  by destruct (truthy_id _).
Qed.

Lemma after_cleanup_idem s : after_cleanup (after_cleanup s) = after_cleanup s.
Proof.
  unfold after_cleanup.
  destruct s as [mo cv [a|] il er hp tm nt]; simpl; [|done].
  by destruct (truthy_id _).
Qed.

(** The interval of the view, as [setInterval] returned it (a number
    other than 0), is no longer armed after the cleanup. *)
Lemma after_cleanup_disarms s id :
  watchdog s = Some id → id ≠ 0 → id ∉ timers (after_cleanup s).
Proof.
  unfold watchdog, after_cleanup.
  destruct (pagViewRef s) as [a|]; [|done].
  destruct (get_loopIntervalId s a) as [id'|] eqn:Hget; [|done].
  destruct (bool_decide (id' ∈ timers s)); [|done].
  intros [= ->] Hid. cbn [truthy_id].
  destruct (Z.eqb_spec id 0) as [->|_]; [done|]. cbn.
  rewrite list_elem_of_filter. tauto.
Qed.

(** And it says so to the host: the id of the watchdog is passed to
    [clearInterval]. *)
Lemma cleanup_trace_clears destroy s id :
  watchdog s = Some id → id ≠ 0 → CallClearInterval id ∈ cleanup_trace destroy s.
Proof.
  unfold watchdog, cleanup_trace.
  destruct (pagViewRef s) as [a|]; [|done].
  destruct (get_loopIntervalId s a) as [id'|] eqn:Hget; [|done].
  destruct (bool_decide (id' ∈ timers s)); [|done].
  intros [= ->] Hid. cbn [truthy_id].
  destruct (Z.eqb_spec id 0) as [->|_]; [done|].
  apply list_elem_of_further, list_elem_of_here.
Qed.

(** The cleanup does not touch the hooks. *)
Lemma after_cleanup_presentation s :
  presentation (after_cleanup s) = presentation s.
Proof.
  unfold after_cleanup, presentation.
  destruct (pagViewRef s) as [a|]; [|done].
  by destruct (truthy_id _).
Qed.

Lemma after_cleanup_no_watchdog s : watchdog (after_cleanup s) = None.
Proof. unfold watchdog. by rewrite (proj2 (after_cleanup_cleared s)). Qed.

(** C8.  Teardown order.  The cleanup first writes the validity flag, then,
    only when a view is installed: clears the view's interval when the
    view carries a (truthy) id, calls [destroy], logs a warning when
    [destroy] threw, and finally clears the ref.  Nothing else happens, in
    no other order, and the cleanup itself completes normally whatever
    [destroy] does.  Afterwards the flag is down, no view is behind the
    ref, the view's interval is no longer armed, and the hooks are as
    they were. *)
Theorem C8_cleanup_order (destroy : option JsValue) (s : State) :
  cleanup destroy s =
    (Normal tt, after_cleanup s,
     WriteMounted false ::
     match pagViewRef s with
     | None => []
     | Some a =>
         match truthy_id (get_loopIntervalId s a) with
         | Some id => [CallClearInterval id]
         | None => []
         end ++
         [CallDestroy a] ++
         match destroy with
         | Some _ => [ConsoleWarn "Error destroying PAG view:"]
         | None => []
         end ++
         [WriteRef None]
     end)
  ∧ isMounted (after_cleanup s) = false
  ∧ pagViewRef (after_cleanup s) = None
  ∧ watchdog (after_cleanup s) = None
  ∧ (∀ id, watchdog s = Some id → id ≠ 0 → id ∉ timers (after_cleanup s))
  ∧ presentation (after_cleanup s) = presentation s.
Proof.
  split; [apply cleanup_run|].
  destruct (after_cleanup_cleared s) as [Hm Hr].
  split; [done|]. split; [done|].
  split; [apply after_cleanup_no_watchdog|].
  split; [apply after_cleanup_disarms|apply after_cleanup_presentation].
Qed.

(** C9.  Teardown is idempotent.  From every state, a first cleanup
    completes normally, and a second one right after it completes normally
    too, leaves the state exactly as the first one left it, and does
    nothing but write the flag again: no interval is cleared and no view
    is destroyed a second time. *)
Theorem C9_cleanup_idempotent (d1 d2 : option JsValue) (s : State) :
  ∃ s1 t1,
    cleanup d1 s = (Normal tt, s1, t1)
    ∧ cleanup d2 s1 = (Normal tt, s1, [WriteMounted false]).
Proof.
  exists (after_cleanup s), (cleanup_trace d1 s).
  split; [apply cleanup_run|].
  rewrite cleanup_run, after_cleanup_idem.
  unfold cleanup_trace. by rewrite (proj2 (after_cleanup_cleared s)).
Qed.

(** ** The interval callback *)

Lemma Qle_bool_false (x y : Q) : (y < x)%Q → Qle_bool x y = false.
Proof.
  intros Hlt. destruct (Qle_bool x y) eqn:Hle; [|done].
  apply Qle_bool_iff in Hle. exfalso. by apply (Qlt_not_le y x).
Qed.

(** The threshold is within 2^-53 below 99/100, so a progress of at least
    99/100 is at least the threshold. *)
Lemma restart_threshold_close :
  (restart_threshold <= 99 # 100)%Q
  ∧ ((99 # 100) - restart_threshold < 1 # 9007199254740992)%Q.
Proof. split; [by vm_compute|by vm_compute]. Qed.

(** Zero, which stands in for an unreadable progress, is below the
    threshold. *)
Lemma zero_below_threshold : Qle_bool restart_threshold 0 = false.
Proof. done. Qed.

(** One tick of the watchdog on a live session (a view is installed and
    the activation is valid), as far as the callback itself goes.  The
    callback always completes normally and changes no cell of the
    component.  When [getProgress] returns a number of at least 0.99 it
    calls [setProgress(0)] and then [play()], in this order; it stops
    after [setProgress] if that call throws, and before it if the view
    has no such method.  When the number is below 0.99 it only polls;
    when [getProgress] does not exist, returns NaN or throws, the progress
    counts as 0 and nothing is restarted.  What the promise of that
    [play()] does later is out of the reach of the callback. *)
Lemma watchdog_tick_calls (s : State) (a : nat) (answers : TickAnswers) :
  pagViewRef s = Some a →
  isMounted s = true →
  ∃ t, interval_callback answers s = (Normal tt, s, t)
    ∧ (∀ q, getProgress answers = Some (inr (Num q)) →
            (restart_threshold <= q)%Q →
            setProgress answers = None →
            t = [CallGetProgress a; CallSetProgress a 0; CallPlay a])
    ∧ (∀ q v, getProgress answers = Some (inr (Num q)) →
            (restart_threshold <= q)%Q →
            setProgress answers = Some (Threw v) →
            t = [CallGetProgress a; CallSetProgress a 0])
    ∧ (∀ q, getProgress answers = Some (inr (Num q)) →
            (restart_threshold <= q)%Q →
            setProgress answers = Some NoSuchMethod →
            t = [CallGetProgress a])
    ∧ (∀ q, getProgress answers = Some (inr (Num q)) →
            (q < restart_threshold)%Q →
            t = [CallGetProgress a])
    ∧ (getProgress answers = None → t = [])
    ∧ (getProgress answers = Some (inr NaN) → t = [CallGetProgress a])
    ∧ (∀ v, getProgress answers = Some (inl v) → t = [CallGetProgress a]).
Proof.
  intros Href Hmounted.
  destruct answers as [gp sp pl].
  unfold interval_callback, poll_progress, reset_progress. unfold_m. simpl.
  rewrite Href, Hmounted.
  destruct gp as [[v|[q|]]|]; simpl.
  - eexists; split; [done|]. repeat split; intros; simplify_eq; done.
  - destruct (Qle_bool restart_threshold q) eqn:Hq.
    + destruct sp as [[|v]|]; [| |destruct pl as [v|]]; simpl.
      all: eexists; split; [done|]; repeat split; intros; simplify_eq; try done.
      all: by rewrite Qle_bool_false in Hq.
    + eexists; split; [done|]. repeat split; intros; simplify_eq; try done.
      all: match goal with H : (_ <= _)%Q |- _ => apply Qle_bool_iff in H end.
      all: congruence.
  - eexists; split; [done|]. repeat split; intros; simplify_eq; done.
  - eexists; split; [done|]. repeat split; intros; simplify_eq; done.
Qed.

(** The markup shows what the hooks present, except that an empty error
    message leaves the container in place. *)
Lemma render_presentation s :
  render s =
  match presentation s with
  | Loading => PagContainer true
  | Ready => PagContainer false
  | Error msg =>
      if String.eqb msg "" then PagContainer (isLoading s)
      else PagError ("Failed to load animation: " +:+ msg)
  end.
Proof.
  unfold render, presentation.
  destruct (error s); [done|]. by destruct (isLoading s).
Qed.

(** The scenario of the specification: a poll of 0.995 restarts, a poll
    of 0.5 does not. *)
Lemma watchdog_tick_scenario :
  let s := {| isMounted := true; canvasRef := None; pagViewRef := Some 0%nat;
              isLoading := false; error := None;
              heap := [{| loopIntervalId := Some 1 |}];
              timers := [1]; nextTimer := 2 |} in
  let answers := {| getProgress := Some (inr (Num (995 # 1000)));
                    setProgress := None; play_again := None |} in
  ∃ t, interval_callback answers s = (Normal tt, s, t)
       ∧ t = [CallGetProgress 0; CallSetProgress 0 0; CallPlay 0].
Proof.
  intros s answers.
  destruct (watchdog_tick_calls s 0 answers eq_refl eq_refl) as (t & Hrun & Hrestart & _).
  exists t. split; [exact Hrun|].
  apply (Hrestart (995 # 1000)%Q); [reflexivity| |reflexivity].
  unfold restart_threshold, Qle. simpl. lia.
Qed.

(** C5, at the input where it fails.  Everything answers well and both
    flags are set; the run ends [Ready] with timer 1 as the watchdog of
    view 0.  The watchdog ticks and polls 0.995: the callback resets the
    progress and calls [play()], which hands back its promise; the
    callback drops it and completes, and the [try] of line 108 is left.
    Then that promise rejects.  No handler is attached to it, so the
    rejection is not swallowed: it reaches the host as an unhandled
    rejection. *)
Theorem C5_restart_rejection_unhandled :
  ∃ m t1 t2,
    live_run (a_bin true true) all_fine (first_render (Some a_canvas)) awaits
      = (Normal m, t1)
    ∧ pc m = Finished
    ∧ presentation (st m) = Ready
    ∧ pagViewRef (st m) = Some 0%nat
    ∧ watchdog (st m) = Some 1
    ∧ interval_callback at_the_end (st m) =
        (Normal tt, st m,
         [CallGetProgress 0; CallSetProgress 0 0; CallPlay 0])
    ∧ run (a_bin true true) all_fine (first_render (Some a_canvas))
        (repeat Settles awaits ++
         [Tick 1 at_the_end; RestartRejects (JsError "play failed")])
      = (Normal m, t1 ++ t2)
    ∧ t2 = [CallGetProgress 0; CallSetProgress 0 0; CallPlay 0;
            UnhandledRejection (JsError "play failed")].
Proof.
  do 3 eexists. split; [vm_compute; reflexivity|].
  do 5 (split; [vm_compute; reflexivity|]).
  split; [vm_compute; reflexivity|reflexivity].
Qed.

(** ** A missing canvas *)

(** C10.  When [canvasRef.current] is null as the effect body starts, the
    initializer throws "Canvas element not found" at once: the run is over
    without a single call to the engine or the network (no [PAGInit], no
    [fetch], no decode, no bind), whatever settles later; the
    Presentation State is [Error] with that message, and the run installs
    no view. *)
Theorem C10_missing_canvas (props : PagAnimationProps) (engine : Engine)
    (s : State) (k : nat) :
  canvasRef s = None →
  ∃ s',
    live_run props engine s k =
      (Normal {| pc := Finished; st := s' |},
       [SetIsLoading true; SetError None;
        ConsoleError "PAG animation error:" (JsError "Canvas element not found");
        SetError (Some "Canvas element not found"); SetIsLoading false])
    ∧ presentation s' = Error "Canvas element not found"
    ∧ pagViewRef s' = pagViewRef s
    ∧ heap s' = heap s
    ∧ timers s' = timers s.
Proof.
  intros Hcanvas.
  destruct s as [mo cv pv il er hp tm nt]. simpl in Hcanvas. subst cv.
  eexists. split.
  - unfold live_run, run, useEffect_body, initPagAnimation, from_entry, on_error.
    unfold_m. simpl. rewrite exec_settles_finished. reflexivity.
  - done.
Qed.

Lemma C10_missing_canvas_witness :
  ∃ s',
    live_run (a_bin true true) all_fine (first_render None) 3 =
      (Normal {| pc := Finished; st := s' |},
       [SetIsLoading true; SetError None;
        ConsoleError "PAG animation error:" (JsError "Canvas element not found");
        SetError (Some "Canvas element not found"); SetIsLoading false])
    ∧ presentation s' = Error "Canvas element not found"
    ∧ pagViewRef s' = pagViewRef (first_render None)
    ∧ heap s' = heap (first_render None)
    ∧ timers s' = timers (first_render None).
Proof.
  apply (C10_missing_canvas _ _ (first_render None) 3). reflexivity.
Defined.

(** ** Runs in which only the awaited promises happen *)

(** A run whose first failing stage is [f] ends in [Error] with the
    message of [f].  A failure before binding leaves the ref, the heap and
    the timers as they were; a rejected [play()] leaves the view that was
    just bound behind the ref. *)
Lemma live_run_failure props engine s0 f :
  failure props engine (canvasRef s0) = Some f →
  ∃ s t, live_run props engine s0 awaits =
           (Normal {| pc := Finished; st := s |}, t)
    ∧ presentation s = Error (failure_message f)
    ∧ pagViewRef s =
        (if before_session f then pagViewRef s0 else Some (length (heap s0)))
    ∧ (before_session f = true → heap s = heap s0)
    ∧ timers s = timers s0.
Proof.
  revert f. open_run props engine s0.
  explore; intros f' Hf; simplify_eq; read_off.
Qed.

(** A run without a failing stage ends in [Ready] with the new view
    behind the ref, and with the watchdog armed when both flags are set. *)
Lemma live_run_success props engine s0 :
  failure props engine (canvasRef s0) = None →
  ∃ s t, live_run props engine s0 awaits =
           (Normal {| pc := Finished; st := s |}, t)
    ∧ presentation s = Ready
    ∧ pagViewRef s = Some (length (heap s0))
    ∧ watchdog s =
        (if autoPlay props && loop props then Some (nextTimer s0) else None)
    ∧ isMounted s = true.
Proof.
  open_run props engine s0.
  explore; intros Hf; simplify_eq; read_off.
Qed.

(** At every point of a run that starts without a view behind the ref, a
    watchdog exists exactly after finishing [Ready] with both flags set,
    and the only view that can be behind the ref is the new one. *)
Lemma live_run_watchdog props engine s0 k :
  pagViewRef s0 = None →
  ∃ m t, live_run props engine s0 k = (Normal m, t)
    ∧ watchdog (st m) =
        (if is_ready (presentation (st m)) && autoPlay props && loop props
         then Some (nextTimer s0) else None)
    ∧ (is_Some (pagViewRef (st m)) →
         pagViewRef (st m) = Some (length (heap s0))).
Proof.
  intros Hfresh.
  destruct (decide (k < awaits)%nat) as [Hk|Hk].
  - open_run props engine s0. simpl in Hfresh. subst.
    do 6 (destruct k as [|k]; [by explore; read_off|]).
    unfold awaits in Hk; lia.
  - rewrite live_run_stable by lia.
    open_run props engine s0. simpl in Hfresh. subst.
    explore; read_off.
Qed.

Lemma live_run_finished_stays props engine s0 k j m t :
  live_run props engine s0 k = (Normal m, t) →
  pc m = Finished →
  (k ≤ j)%nat →
  live_run props engine s0 j = (Normal m, t).
Proof.
  intros Hrun Hpc Hkj. unfold live_run in *.
  replace j with (k + (j - k))%nat by lia.
  rewrite repeat_app, run_app, Hrun.
  destruct m as [pc0 s]. simpl in Hpc. subst pc0.
  by rewrite exec_settles_finished, app_nil_r.
Qed.

(** Whether [setRepeatCount] throws or not makes no difference to where a
    run stands, at any point. *)
Lemma repeat_failure_invisible props engine s0 k :
  ∃ m t t',
    live_run props engine s0 k = (Normal m, t)
    ∧ live_run props (repeat_supported engine) s0 k = (Normal m, t').
Proof.
  destruct (decide (k < awaits)%nat) as [Hk|Hk].
  - open_run props engine s0.
    do 6 (destruct k as [|k];
          [by explore; do 3 eexists; split; reflexivity|]).
    unfold awaits in Hk; lia.
  - rewrite !(live_run_stable _ _ _ k) by lia.
    open_run props engine s0.
    by explore; do 3 eexists; split; reflexivity.
Qed.

Lemma watchdog_armed s id : watchdog s = Some id → id ∈ timers s.
Proof.
  unfold watchdog. intros H.
  destruct (pagViewRef s); [|done].
  destruct (get_loopIntervalId s n) as [id'|]; [|done].
  destruct (bool_decide (id' ∈ timers s)) eqn:Hin; [|done].
  apply bool_decide_eq_true in Hin. congruence.
Qed.

(** A poll at or above the threshold restarts the view. *)
Lemma interval_callback_restarts s a answers q :
  pagViewRef s = Some a →
  isMounted s = true →
  getProgress answers = Some (inr (Num q)) →
  (restart_threshold <= q)%Q →
  setProgress answers = None →
  interval_callback answers s =
    (Normal tt, s, [CallGetProgress a; CallSetProgress a 0; CallPlay a]).
Proof.
  intros Href Hmounted Hget Hq Hset.
  apply Qle_bool_iff in Hq.
  destruct answers as [gp sp pl]. simpl in *. subst gp sp.
  unfold interval_callback, poll_progress, reset_progress. unfold_m. simpl.
  rewrite Href, Hmounted. simpl. rewrite Hq.
  by destruct pl.
Qed.

(** ** The Presentation State of a run *)

(** The interval callback never throws and writes to no cell. *)
Lemma interval_callback_quiet answers s :
  ∃ t, interval_callback answers s = (Normal tt, s, t).
Proof.
  destruct answers as [gp sp pl].
  unfold interval_callback, poll_progress, reset_progress. unfold_m.
  cbn [getProgress setProgress play_again].
  destruct (pagViewRef s) as [a|]; [|by eauto].
  destruct (isMounted s); [|by eauto].
  destruct gp as [[v|[q|]]|]; cbn [or_zero]; try by eauto.
  destruct (Qle_bool restart_threshold q); [|by eauto].
  destruct sp as [[|v]|]; [by eauto..|]. destruct pl; by eauto.
Qed.

(** The effect body starts a valid activation. *)
Lemma useEffect_body_valid s0 :
  ∃ p s t, useEffect_body s0 = (Normal p, s, t)
    ∧ valid_activation {| pc := p; st := s |}.
Proof.
  destruct s0 as [mo cv pv il er hp tm nt].
  unfold valid_activation.
  explore; by do 3 eexists.
Qed.

(** One event that is not the cleanup keeps the activation valid and
    throws nothing; a settled promise brings the initializer at least one
    await further; and once the initializer has finished, no event
    touches the hooks. *)
Lemma step_valid props engine ev m :
  keeps_mounted ev = true →
  valid_activation m →
  ∃ p s t, step props engine ev m = (Normal p, s, t)
    ∧ valid_activation {| pc := p; st := s |}
    ∧ (rank p ≤ rank (pc m))%nat
    ∧ (ev = Settles → pc m ≠ Finished → (rank p < rank (pc m))%nat)
    ∧ (pc m = Finished →
         p = Finished ∧ presentation s = presentation (st m)).
Proof.
  intros Hev [Hmounted Hhooks].
  destruct m as [p0 s0]. cbn [pc st] in *.
  destruct ev as [|destroy|id answers| |rejection]; [|done|..].
  - (* the awaited promise settles *)
    destruct props as [file w h ap lp].
    destruct engine as [i f l v hr r pl].
    destruct s0 as [mo cv pv il er hp tm nt]. cbn in Hmounted. subst mo.
    unfold valid_activation.
    destruct p0 as [| |response| | |pagView|]; cbn in Hhooks;
      [destruct Hhooks as [-> ->]..|subst il].
    all: cbn [step pc st rank]; explore.
    all: do 3 eexists; split; [reflexivity|]; cbn; repeat split; try lia; done.
  - (* the interval fires *)
    cbn [step pc st]. destruct (bool_decide _).
    + destruct (interval_callback_quiet answers s0) as [t Ht].
      unfold_m. rewrite Ht.
      exists p0, s0, (t ++ []). by repeat split; try lia.
    + exists p0, s0, []. by repeat split; try lia.
  - (* the canvas is detached *)
    exists p0, (with_canvasRef None s0), [].
    by repeat split; try lia.
  - (* a dropped promise rejects *)
    exists p0, s0, [UnhandledRejection rejection].
    by repeat split; try lia.
Qed.

(** A schedule without cleanup, run from a valid activation. *)
Lemma exec_valid props engine evs m :
  forallb keeps_mounted evs = true →
  valid_activation m →
  ∃ m' t, exec props engine evs m = (Normal m', t)
    ∧ valid_activation m'
    ∧ (rank (pc m') ≤ rank (pc m) - settled evs)%nat
    ∧ (pc m = Finished →
         pc m' = Finished ∧ presentation (st m') = presentation (st m)).
Proof.
  revert m. induction evs as [|ev evs IH]; intros m Hevs Hvalid.
  - exists m, []. split; [done|]. split; [done|]. split; [cbn [settled]; lia|done].
  - cbn in Hevs. apply andb_prop in Hevs as [Hev Hevs].
    destruct (step_valid props engine ev m Hev Hvalid)
      as (p & s & t1 & Hstep & Hvalid1 & Hle & Hlt & Hfin).
    destruct (IH {| pc := p; st := s |} Hevs Hvalid1)
      as (m' & t2 & Hexec & Hvalid' & Hrank & Hfin').
    exists m', (t1 ++ t2). cbn [exec]. rewrite Hstep, Hexec.
    split; [done|]. split; [done|]. cbn [pc st] in *. split.
    + destruct ev as [|destroy|id answers| |rejection]; cbn [settled]; try lia.
      destruct (pc m) eqn:Hpc.
      7: { destruct (Hfin eq_refl) as [-> _]. cbn in Hrank. lia. }
      all: specialize (Hlt eq_refl ltac:(done)); lia.
    + intros Hpc. destruct (Hfin Hpc) as [-> Hpres].
      destruct (Hfin' eq_refl) as [Hpc' Hpres'].
      split; [done|]. congruence.
Qed.

Lemma valid_activation_presentation m :
  valid_activation m →
  (pc m ≠ Finished → presentation (st m) = Loading)
  ∧ (pc m = Finished →
       presentation (st m) = Ready ∨ ∃ msg, presentation (st m) = Error msg).
Proof.
  intros [_ Hhooks]. unfold presentation. split.
  - intros Hpc. destruct (pc m); try done; by destruct Hhooks as [-> ->].
  - intros Hpc. rewrite Hpc in Hhooks. rewrite Hhooks.
    destruct (error (st m)) as [msg|]; [right; by exists msg|by left].
Qed.

Lemma rank_bound p : (rank p ≤ awaits)%nat.
Proof. unfold awaits. destruct p; cbn; lia. Qed.

Lemma rank_finished p : rank p = 0%nat → p = Finished.
Proof. by destruct p. Qed.

(** C7.  Exactly one of Ready and Error is reached.  Take any state of
    the component and any schedule in which the activation is not torn
    down: promises settle, the interval fires, the canvas may even be
    detached, but the cleanup does not run.  Then no exception escapes;
    while the initializer is in flight the Presentation State is
    [Loading]; once [awaits] promises have settled the initializer has
    finished; when it has finished the state is [Ready] or [Error], and
    whatever happens afterwards it stays the one it is.  And in every
    state whatsoever, exactly one of Loading, Ready and Error is what the
    hooks present. *)
Theorem C7_ready_xor_error (props : PagAnimationProps) (engine : Engine)
    (s0 : State) (evs : list Event) :
  forallb keeps_mounted evs = true →
  ∃ m t,
    run props engine s0 evs = (Normal m, t)
    ∧ (pc m ≠ Finished → presentation (st m) = Loading)
    ∧ (pc m = Finished →
         presentation (st m) = Ready ∨ ∃ msg, presentation (st m) = Error msg)
    ∧ ((awaits ≤ settled evs)%nat → pc m = Finished)
    ∧ (pc m = Finished →
         ∀ evs', forallb keeps_mounted evs' = true →
           ∃ m' t', run props engine s0 (evs ++ evs') = (Normal m', t')
             ∧ pc m' = Finished
             ∧ presentation (st m') = presentation (st m))
    ∧ (∀ s : State,
         (presentation s = Loading ∧ presentation s ≠ Ready
            ∧ ¬ ∃ msg, presentation s = Error msg)
         ∨ (presentation s ≠ Loading ∧ presentation s = Ready
            ∧ ¬ ∃ msg, presentation s = Error msg)
         ∨ (presentation s ≠ Loading ∧ presentation s ≠ Ready
            ∧ ∃ msg, presentation s = Error msg)).
Proof.
  intros Hevs.
  destruct (useEffect_body_valid s0) as (p0 & s1 & t0 & Hbody & Hvalid0).
  destruct (exec_valid props engine evs _ Hevs Hvalid0)
    as (m & t & Hexec & Hvalid & Hrank & _).
  assert (run props engine s0 evs = (Normal m, t0 ++ t)) as Hrun.
  { unfold run. by rewrite Hbody, Hexec. }
  exists m, (t0 ++ t). split; [done|].
  destruct (valid_activation_presentation m Hvalid) as [Hflight Hdone].
  split; [done|]. split; [done|]. split; [|split].
  - intros Hsettled. apply rank_finished.
    pose proof (rank_bound p0). cbn [pc] in Hrank. unfold awaits in *. lia.
  - intros Hpc evs' Hevs'.
    destruct (exec_valid props engine evs' m Hevs' Hvalid)
      as (m' & t' & Hexec' & _ & _ & Hstays).
    destruct (Hstays Hpc) as [Hpc' Hpres'].
    exists m', ((t0 ++ t) ++ t'). rewrite run_app, Hrun, Hexec'. done.
  - intros s. destruct (presentation s) as [| |msg].
    + left. split; [done|]. split; [done|]. by intros [? ?].
    + right; left. split; [done|]. split; [done|]. by intros [? ?].
    + right; right. split; [done|]. split; [done|]. by exists msg.
Qed.

(** The scenario of the specification: everything answers well, and
    after six settled promises the state is [Ready]. *)
Lemma C7_ready_xor_error_witness :
  ∃ m t,
    run (a_bin true true) all_fine (first_render (Some a_canvas))
      (repeat Settles awaits) = (Normal m, t)
    ∧ pc m = Finished
    ∧ presentation (st m) = Ready.
Proof.
  destruct (C7_ready_xor_error (a_bin true true) all_fine
              (first_render (Some a_canvas)) (repeat Settles awaits) eq_refl)
    as (m & t & Hrun & _).
  exists m, t. split; [exact Hrun|].
  vm_compute in Hrun. injection Hrun as <- <-. split; reflexivity.
Defined.

(** C4.  A failure before a view exists is reported.  Take a run that is
    not torn down and starts without a view behind the ref.  When its
    first failing stage is the bootstrap, the fetch, the decode or the
    bind (a rejected promise, a response that is not ok, a null file or a
    null view; or already the canvas lookup), the run ends with the
    Presentation State [Error] carrying the failure's message: the message
    of the thrown [Error]; "Unknown error occurred" for a thrown value
    that is not an [Error]; "Failed to load PAG file: " followed by the
    status text for a response that is not ok; and the fixed texts for a
    null file and a null view.  No view is behind the ref, none was even
    created, and no timer was armed. *)
Theorem C4_failure_reported (props : PagAnimationProps) (engine : Engine)
    (s0 : State) (f : Failure) :
  pagViewRef s0 = None →
  failure props engine (canvasRef s0) = Some f →
  before_session f = true →
  ∃ s t,
    live_run props engine s0 awaits =
      (Normal {| pc := Finished; st := s |}, t)
    ∧ presentation s = Error (failure_message f)
    ∧ pagViewRef s = None
    ∧ heap s = heap s0
    ∧ timers s = timers s0
    ∧ (∀ status, f = FetchNotOk status →
         presentation s = Error ("Failed to load PAG file: " +:+ status))
    ∧ (f = DecodeNull → presentation s = Error "Failed to load PAG file")
    ∧ (f = BindNull → presentation s = Error "Failed to create PAG view")
    ∧ (f ∈ [BootstrapRejected JsOther; FetchRejected JsOther;
            BodyRejected JsOther; DecodeRejected JsOther;
            BindRejected JsOther] →
         presentation s = Error "Unknown error occurred").
Proof.
  intros Hfresh Hf Hbefore.
  destruct (live_run_failure props engine s0 f Hf)
    as (s & t & Hrun & Hpres & Href & Hheap & Htimers).
  rewrite Hbefore, Hfresh in Href.
  exists s, t. repeat split; try done; [by apply Hheap|..].
  - by intros status ->.
  - by intros ->.
  - by intros ->.
  - intros Hin. rewrite Hpres.
    repeat (apply elem_of_cons in Hin as [->|Hin]; [done|]).
    by apply elem_of_nil in Hin.
Qed.

(** The scenario of the specification: the fetch answers 404 Not Found. *)
Lemma C4_failure_reported_witness :
  ∃ s t,
    live_run (a_bin true true) file_missing (first_render (Some a_canvas)) awaits =
      (Normal {| pc := Finished; st := s |}, t)
    ∧ presentation s = Error "Failed to load PAG file: Not Found"
    ∧ pagViewRef s = None.
Proof.
  destruct (C4_failure_reported (a_bin true true) file_missing
              (first_render (Some a_canvas))
              (FetchNotOk "Not Found") eq_refl eq_refl eq_refl)
    as (s & t & Hrun & Hpres & Href & _).
  exists s, t. split; [exact Hrun|]. split; [exact Hpres|exact Href].
Defined.

(** C3 does not hold as stated: when [play()] rejects, the state is
    [Error] although the view that was bound is still behind the ref. *)
Lemma C3_counterexample :
  ¬ (∀ props engine s0 s t,
       pagViewRef s0 = None →
       live_run props engine s0 awaits =
         (Normal {| pc := Finished; st := s |}, t) →
       (∃ msg, presentation s = Error msg) →
       pagViewRef s = None).
Proof.
  intros Hclaim.
  specialize (Hclaim (a_bin true true) play_rejects
                     (first_render (Some a_canvas)) _ _ eq_refl eq_refl).
  simpl in Hclaim.
  assert (Some 0%nat = None) as Habs; [|discriminate Habs].
  apply Hclaim. by exists "play failed".
Qed.

(** C3, amended.  In a run that is not torn down and starts without a
    view behind the ref, the Presentation State ends as [Error] if and
    only if some stage failed: the canvas lookup, the bootstrap, the
    fetch, the decode, the bind, or the start of playback.  The message
    is that of the first failure.  When the failure came before binding,
    no view is behind the ref; when [play()] rejected, the state is
    [Error] and the view bound just before stays behind the ref. *)
Theorem C3_error_iff_stage_failed (props : PagAnimationProps) (engine : Engine)
    (s0 : State) :
  pagViewRef s0 = None →
  ∃ s t,
    live_run props engine s0 awaits =
      (Normal {| pc := Finished; st := s |}, t)
    ∧ ((∃ msg, presentation s = Error msg)
         ↔ is_Some (failure props engine (canvasRef s0)))
    ∧ (∀ f, failure props engine (canvasRef s0) = Some f →
         presentation s = Error (failure_message f)
         ∧ (before_session f = true → pagViewRef s = None)
         ∧ (∀ v, f = PlayRejected v →
              pagViewRef s = Some (length (heap s0)))).
Proof.
  intros Hfresh.
  destruct (failure props engine (canvasRef s0)) as [f|] eqn:Hf.
  - destruct (live_run_failure props engine s0 f Hf)
      as (s & t & Hrun & Hpres & Href & _).
    exists s, t. split; [done|]. split.
    + split; [by eauto|]. intros _. by exists (failure_message f).
    + intros f' [= <-]. split; [done|]. split.
      * intros Hb. by rewrite Hb, Hfresh in Href.
      * by intros v ->.
  - destruct (live_run_success props engine s0 Hf)
      as (s & t & Hrun & Hpres & _).
    exists s, t. split; [done|]. split; [|done].
    split.
    + intros [msg Hmsg]. congruence.
    + by intros [? ?].
Qed.

(** A rejected [play()] on the first activation: [Error], with view 0
    behind the ref. *)
Lemma C3_error_iff_stage_failed_witness :
  ∃ s t,
    live_run (a_bin true true) play_rejects (first_render (Some a_canvas)) awaits =
      (Normal {| pc := Finished; st := s |}, t)
    ∧ presentation s = Error "play failed"
    ∧ pagViewRef s = Some 0%nat.
Proof.
  destruct (C3_error_iff_stage_failed (a_bin true true) play_rejects
              (first_render (Some a_canvas)) eq_refl)
    as (s & t & Hrun & _ & Hfail).
  destruct (Hfail (PlayRejected (JsError "play failed")) eq_refl)
    as (Hpres & _ & Href).
  exists s, t. split; [exact Hrun|]. split; [exact Hpres|].
  exact (Href _ eq_refl).
Defined.

(** ** The watchdog *)

(** C2 does not hold as stated: without autoplay a looping view is
    installed and no watchdog is ever armed. *)
Lemma C2_counterexample :
  ¬ (∀ props engine s0 k m t,
       pagViewRef s0 = None →
       live_run props engine s0 k = (Normal m, t) →
       (is_Some (watchdog (st m))
          ↔ is_Some (pagViewRef (st m)) ∧ loop props = true)).
Proof.
  intros Hclaim.
  specialize (Hclaim (a_bin false true) all_fine
                     (first_render (Some a_canvas)) awaits _ _ eq_refl eq_refl).
  simpl in Hclaim.
  destruct Hclaim as [_ Hwatch].
  destruct Hwatch as [id Hid]; [by eauto|].
  discriminate Hid.
Qed.

(** C2, amended.  At every point of a run that is not torn down and
    starts without a view behind the ref, a watchdog timer exists if and
    only if a view is installed, the initializer has finished [Ready], and
    both [autoPlay] and [loop] are set; in particular none exists while
    the initializer is in flight, when [autoPlay] is off, or when
    [play()] rejected.  And whenever the cleanup runs, it leaves neither a
    view nor a watchdog: the timer that was the watchdog has been cleared
    with [clearInterval] and is no longer among the timers of the host.
    (Timer ids are positive, as [setInterval] hands them out.) *)
Theorem C2_watchdog_iff (props : PagAnimationProps) (engine : Engine)
    (s0 : State) (k : nat) :
  pagViewRef s0 = None →
  0 < nextTimer s0 →
  ∃ m t,
    live_run props engine s0 k = (Normal m, t)
    ∧ (is_Some (watchdog (st m))
         ↔ is_Some (pagViewRef (st m))
           ∧ presentation (st m) = Ready
           ∧ autoPlay props = true
           ∧ loop props = true)
    ∧ (∀ destroy, ∃ s' t',
         cleanup destroy (st m) = (Normal tt, s', t')
         ∧ pagViewRef s' = None
         ∧ watchdog s' = None
         ∧ ∀ id, watchdog (st m) = Some id →
                 (id ∉ timers s') ∧ CallClearInterval id ∈ t').
Proof.
  intros Hfresh Hpos.
  destruct (live_run_watchdog props engine s0 k Hfresh)
    as (m & t & Hrun & Hwatch & _).
  exists m, t. split; [done|]. split.
  - rewrite Hwatch. split.
    + intros [id Hid].
      destruct (presentation (st m)) eqn:Hp; try done.
      destruct (autoPlay props), (loop props); try done.
      repeat split; try done.
      unfold watchdog in Hwatch.
      destruct (pagViewRef (st m)); [by eauto|done].
    + intros (_ & -> & -> & ->). by eauto.
  - intros destroy. exists (after_cleanup (st m)), (cleanup_trace destroy (st m)).
    split; [apply cleanup_run|].
    split; [apply after_cleanup_cleared|].
    split; [apply after_cleanup_no_watchdog|].
    intros id Hid.
    assert (id ≠ 0) as Hid0.
    { rewrite Hwatch in Hid.
      destruct (is_ready _ && autoPlay props && loop props); [|done].
      injection Hid as <-. lia. }
    split; [by apply after_cleanup_disarms|by apply cleanup_trace_clears].
Qed.

(** The scenario of the specification: everything answers well and both
    flags are set; the run ends with timer 1 as the watchdog of view 0. *)
Lemma C2_watchdog_iff_witness :
  ∃ m t,
    live_run (a_bin true true) all_fine (first_render (Some a_canvas)) awaits
      = (Normal m, t)
    ∧ watchdog (st m) = Some 1
    ∧ presentation (st m) = Ready
    ∧ ∃ s' t', cleanup None (st m) = (Normal tt, s', t')
               ∧ (1 ∉ timers s') ∧ CallClearInterval 1 ∈ t'.
Proof.
  destruct (C2_watchdog_iff (a_bin true true) all_fine
              (first_render (Some a_canvas)) awaits eq_refl eq_refl)
    as (m & t & Hrun & _ & Hdown).
  destruct (Hdown None) as (s' & t' & Hclean & _ & _ & Hgone).
  exists m, t. split; [exact Hrun|].
  vm_compute in Hrun. injection Hrun as <- <-.
  split; [reflexivity|]. split; [reflexivity|].
  exists s', t'. split; [exact Hclean|]. exact (Hgone 1 eq_refl).
Defined.

(** C6.  A failing [setRepeatCount] is swallowed.  With [loop] set and
    [setRepeatCount] throwing, a run stands at every point exactly where
    it would stand had the call succeeded: the failure neither ends the
    initializer nor reaches the Presentation State.  With [autoPlay] set
    as well and no stage failing, the run ends [Ready], has logged the
    warning, and has armed the watchdog; a tick of that watchdog which
    polls a progress of at least 0.99 calls [setProgress(0)] and then
    [play()]. *)
Theorem C6_repeat_failure_swallowed (props : PagAnimationProps)
    (engine : Engine) (s0 : State) (v : JsValue) :
  loop props = true →
  setRepeatCount engine = Some v →
  (∀ k, ∃ m t t',
      live_run props engine s0 k = (Normal m, t)
      ∧ live_run props (repeat_supported engine) s0 k = (Normal m, t'))
  ∧ (autoPlay props = true →
     failure props engine (canvasRef s0) = None →
     ∃ s t a id,
       live_run props engine s0 awaits =
         (Normal {| pc := Finished; st := s |}, t)
       ∧ presentation s = Ready
       ∧ ConsoleWarn "setRepeatCount not available, using alternative approach" ∈ t
       ∧ pagViewRef s = Some a
       ∧ watchdog s = Some id
       ∧ ∀ answers q,
           getProgress answers = Some (inr (Num q)) →
           (restart_threshold <= q)%Q →
           setProgress answers = None →
           step props engine (Tick id answers) {| pc := Finished; st := s |} =
             (Normal Finished, s,
              [CallGetProgress a; CallSetProgress a 0; CallPlay a])).
Proof.
  intros Hloop Hrepeat. split; [intros k; apply repeat_failure_invisible|].
  intros Hauto Hfail.
  destruct (live_run_success props engine s0 Hfail)
    as (s & t & Hrun & Hpres & Href & Hwatch & Hmounted).
  rewrite Hauto, Hloop in Hwatch. simpl in Hwatch.
  exists s, t, (length (heap s0)), (nextTimer s0). repeat split; try done.
  - revert Hrun Hfail. clear -Hloop Hrepeat Hauto.
    open_run props engine s0. simpl in *. subst.
    explore; intros Hrun Hfail; simplify_eq;
      rewrite !elem_of_app, !elem_of_cons; tauto.
  - intros answers q Hget Hq Hset.
    unfold step. cbn [st pc].
    rewrite bool_decide_eq_true_2 by by apply watchdog_armed.
    unfold_m.
    by rewrite (interval_callback_restarts s (length (heap s0)) answers q).
Qed.

Lemma C6_repeat_failure_swallowed_witness :
  ∃ m t t',
    live_run (a_bin true true) repeat_unsupported
      (first_render (Some a_canvas)) awaits = (Normal m, t)
    ∧ live_run (a_bin true true) (repeat_supported repeat_unsupported)
        (first_render (Some a_canvas)) awaits = (Normal m, t')
    ∧ presentation (st m) = Ready
    ∧ watchdog (st m) = Some 1.
Proof.
  destruct (C6_repeat_failure_swallowed (a_bin true true) repeat_unsupported
              (first_render (Some a_canvas)) _ eq_refl eq_refl) as [Hsame _].
  destruct (Hsame awaits) as (m & t & t' & Hrun & Hrun').
  exists m, t, t'. split; [exact Hrun|]. split; [exact Hrun'|].
  vm_compute in Hrun. injection Hrun as <- <-. split; reflexivity.
Defined.

(** ** Cleanup while the initializer is in flight *)

(** When the cleanup runs while the initializer waits for the bootstrap,
    the fetch, the body or the decode, whatever settles afterwards writes
    to no cell: the state stays the one the cleanup left.  (The calls that
    were next in line are still made.) *)
Lemma cleanup_before_mount_check_is_inert props engine p s destroy k :
  before_mount_check p = true →
  ∃ m t,
    exec props engine (Cleanup destroy :: repeat Settles k)
      {| pc := p; st := s |} = (Normal m, cleanup_trace destroy s ++ t)
    ∧ st m = after_cleanup s
    ∧ forallb (fun e => negb (is_write e)) t = true.
Proof.
  intros Hp.
  assert (∀ p', before_mount_check p' = true ∨ p' = Finished →
            ∃ p'' t, resume props engine p' (after_cleanup s) =
                       (Normal p'', after_cleanup s, t)
              ∧ (before_mount_check p'' = true ∨ p'' = Finished)
              ∧ forallb (fun e => negb (is_write e)) t = true) as Hstep.
  { intros p' Hp'.
    destruct (after_cleanup_cleared s) as [Hm _].
    destruct (after_cleanup s) as [mo cv pv il er hp tm nt]. simpl in Hm. subst mo.
    destruct props as [file w h ap lp].
    destruct engine as [i f l v hr r pl].
    destruct p' as [| |response| | | |]; simpl in Hp';
      try (destruct Hp' as [Hp'|Hp']; discriminate).
    all: unfold resume, from_PAGInit, from_fetch, from_arrayBuffer, from_load,
           on_error; unfold_m; simpl.
    - destruct i; simpl; eauto 10.
    - destruct f as [[o stt ab]|]; simpl; [destruct o|]; simpl; eauto 10.
    - destruct (arrayBuffer response); simpl; eauto 10.
    - destruct l as [[|]|]; simpl; eauto 10.
    - eauto 10. }
  assert (∀ p', before_mount_check p' = true ∨ p' = Finished →
            ∃ m t, exec props engine (repeat Settles k)
                     {| pc := p'; st := after_cleanup s |} = (Normal m, t)
              ∧ st m = after_cleanup s
              ∧ forallb (fun e => negb (is_write e)) t = true) as Hrest.
  { induction k as [|k IH]; intros p' Hp'; simpl.
    - by exists {| pc := p'; st := after_cleanup s |}, [].
    - destruct (Hstep p' Hp') as (p'' & t1 & Hres & Hp'' & Ht1).
      rewrite Hres.
      destruct (IH p'' Hp'') as (m & t2 & Hexec & Hst & Ht2).
      rewrite Hexec. exists m, (t1 ++ t2).
      repeat split; try done.
      by rewrite forallb_app, Ht1, Ht2. }
  destruct (Hrest p) as (m & t & Hexec & Hst & Ht); [by left|].
  exists m, t.
  cbn [exec step pc st]. unfold_m. rewrite cleanup_run. cbn [pc st].
  by rewrite Hexec, app_nil_r.
Qed.

(** C1, at the input where it fails.  Everything answers well, both flags
    are set, and the cleanup runs while [PAG.PAGView.init] is pending,
    after the check of line 70.  The cleanup leaves the flag down, no
    view, no timer and the state [Loading]; the continuation then installs
    the view, arms an interval and sets the state to [Ready]. *)
Theorem C1_cleanup_during_bind :
  ∃ m1 t1 m2 t2,
    run (a_bin true true) all_fine (first_render (Some a_canvas))
      [Settles; Settles; Settles; Settles; Cleanup None] = (Normal m1, t1)
    ∧ run (a_bin true true) all_fine (first_render (Some a_canvas))
        [Settles; Settles; Settles; Settles; Cleanup None; Settles; Settles]
      = (Normal m2, t1 ++ t2)
    ∧ pc m1 = AtInit
    ∧ isMounted (st m1) = false
    ∧ pagViewRef (st m1) = None
    ∧ presentation (st m1) = Loading
    ∧ timers (st m1) = []
    ∧ t2 = [WriteRef (Some 0%nat); CallSetRepeatCount 0 (-1); CallPlay 0;
            CallSetInterval 1 100; WriteIntervalId 0 1; SetIsLoading false]
    ∧ isMounted (st m2) = false
    ∧ pagViewRef (st m2) = Some 0%nat
    ∧ presentation (st m2) = Ready
    ∧ timers (st m2) = [1]
    ∧ watchdog (st m2) = Some 1.
Proof.
  do 4 eexists. split; [vm_compute; reflexivity|].
  split; [vm_compute; reflexivity|].
  repeat split.
Qed.

(** * The rest of the component: properties *)

(** ** The resource locator *)

Lemma string_length_app (s1 s2 : string) :
  String.length (s1 +:+ s2) = (String.length s1 + String.length s2)%nat.
Proof. induction s1 as [|c s1 IH]; simpl; [done|by f_equal]. Qed.

Lemma substring_whole (s : string) : substring 0 (String.length s) s = s.
Proof. induction s as [|c s IH]; simpl; [done|by f_equal]. Qed.

Lemma substring_after (pre suf : string) :
  substring (String.length pre) (String.length suf) (pre +:+ suf) = suf.
Proof. induction pre as [|c pre IH]; simpl; [apply substring_whole|done]. Qed.

Lemma substring_split (s : string) (k : nat) :
  (k ≤ String.length s)%nat →
  s = substring 0 k s +:+ substring k (String.length s - k) s.
Proof.
  revert s. induction k as [|k IH]; intros s Hk.
  - rewrite Nat.sub_0_r, substring_whole. by destruct s.
  - destruct s as [|c s]; simpl in *; [lia|].
    change (String c s =
            String c (substring 0 k s +:+ substring k (String.length s - k) s)).
    f_equal. apply IH. lia.
Qed.

(** [endsWith] says what its name says. *)
Lemma endsWith_suffix (s suf : string) :
  endsWith s suf = true ↔ ∃ pre, s = pre +:+ suf.
Proof.
  unfold endsWith. split.
  - destruct (Nat.ltb_spec (String.length s) (String.length suf)) as [|Hle];
      [done|].
    intros Heq. apply String.eqb_eq in Heq.
    exists (substring 0 (String.length s - String.length suf) s).
    pose proof (substring_split s (String.length s - String.length suf)) as Hsplit.
    replace (String.length s - (String.length s - String.length suf))%nat
      with (String.length suf) in Hsplit by lia.
    rewrite Heq in Hsplit. apply Hsplit. lia.
  - intros [pre ->]. rewrite string_length_app.
    destruct (Nat.ltb_spec (String.length pre + String.length suf)
                           (String.length suf)) as [Hlt|_]; [lia|].
    replace (String.length pre + String.length suf - String.length suf)%nat
      with (String.length pre) by lia.
    rewrite substring_after. apply String.eqb_refl.
Qed.

(** X1.  [locateFile] roots exactly the [.wasm] files: a path that ends in
    ".wasm" comes back with one slash in front of it, every other path
    comes back as it is; and either way the result ends in ".wasm" exactly
    when the path does, so the engine still gets the kind of file it
    asked for. *)
Theorem locateFile_roots_wasm (path : string) :
  ((∃ stem, path = stem +:+ ".wasm")
     ∧ locateFile path = "/" +:+ path
   ∨ (¬ ∃ stem, path = stem +:+ ".wasm")
     ∧ locateFile path = path)
  ∧ endsWith (locateFile path) ".wasm" = endsWith path ".wasm".
Proof.
  unfold locateFile.
  destruct (endsWith path ".wasm") eqn:Hends.
  - apply endsWith_suffix in Hends as Hstem. split; [by left|].
    apply endsWith_suffix. destruct Hstem as [stem ->].
    by exists ("/" +:+ stem).
  - split; [|done]. right. split; [|done].
    intros Hstem. apply endsWith_suffix in Hstem. congruence.
Qed.

(** ** Schedules of any kind *)

(** The catch clause never throws, so no piece of the initializer does. *)
Lemma try_catch_on_error_normal (body : M Pc) s :
  ∃ p s' t, try_catch body on_error s = (Normal p, s', t).
Proof.
  unfold try_catch. destruct (body s) as [[[p|v] s1] t1]; [by eauto|].
  unfold on_error. unfold_m. destruct (isMounted s1); cbn; by eauto.
Qed.

Lemma resume_normal props engine p s :
  ∃ p' s' t, resume props engine p s = (Normal p', s', t).
Proof.
  destruct p; cbn [resume]; try apply try_catch_on_error_normal.
  by do 3 eexists.
Qed.






Lemma step_normal props engine ev m :
  ∃ p s t, step props engine ev m = (Normal p, s, t).
Proof.
  destruct ev as [|destroy|id answers| |rejection]; cbn [step].
  - apply resume_normal.
  - unfold_m. rewrite cleanup_run. by eauto.
  - destruct (bool_decide _); [|by eauto].
    destruct (interval_callback_quiet answers (st m)) as [t Ht].
    unfold_m. rewrite Ht. by eauto.
  - by eauto.
  - by eauto.
Qed.

Lemma exec_normal props engine evs m :
  ∃ m' t, exec props engine evs m = (Normal m', t).
Proof.
  revert m. induction evs as [|ev evs IH]; intros m; cbn [exec]; [by eauto|].
  destruct (step_normal props engine ev m) as (p & s & t & ->).
  destruct (IH {| pc := p; st := s |}) as (m' & t' & ->). by eauto.
Qed.



(** Induction along a schedule: what every allowed event keeps of the
    machine and of the trace so far, the whole schedule keeps. *)
Lemma exec_invariant props engine (allowed : Event → bool)
    (R : Machine → list Effect → Prop) :
  (∀ ev m t0, allowed ev = true → R m t0 →
     ∃ p s t, step props engine ev m = (Normal p, s, t)
       ∧ R {| pc := p; st := s |} (t0 ++ t)) →
  ∀ evs m t0, forallb allowed evs = true → R m t0 →
    ∃ m' t, exec props engine evs m = (Normal m', t) ∧ R m' (t0 ++ t).
Proof.
  intros Hstep evs. induction evs as [|ev evs IH]; intros m t0 Hevs HR.
  - exists m, []. by rewrite app_nil_r.
  - cbn in Hevs. apply andb_prop in Hevs as [Hev Hevs].
    destruct (Hstep ev m t0 Hev HR) as (p & s & t1 & Hs & HR1).
    destruct (IH _ _ Hevs HR1) as (m' & t2 & Hexec & HR2).
    exists m', (t1 ++ t2). cbn [exec]. rewrite Hs, Hexec.
    by rewrite app_assoc.
Qed.

Lemma forallb_any_event evs : forallb any_event evs = true.
Proof. by induction evs. Qed.

Lemma after_cleanup_error s : error (after_cleanup s) = error s.
Proof.
  unfold after_cleanup. destruct (pagViewRef s) as [a|]; [|done].
  by destruct (truthy_id _).
Qed.

Lemma cleanup_trace_forallb (Q : Effect → bool) destroy s :
  Q (WriteMounted false) = true →
  Q (WriteRef None) = true →
  Q (ConsoleWarn "Error destroying PAG view:") = true →
  (∀ a, Q (CallDestroy a) = true) →
  (∀ id, Q (CallClearInterval id) = true) →
  forallb Q (cleanup_trace destroy s) = true.
Proof.
  intros Hm Hr Hw Hd Hc. unfold cleanup_trace. cbn. rewrite Hm.
  destruct (pagViewRef s) as [a|]; [|done].
  destruct (truthy_id _), destroy; cbn; by rewrite ?Hc, ?Hd, ?Hw, ?Hr.
Qed.

(** The calls of the interval callback, whatever the view answers. *)
Lemma interval_callback_trace answers s :
  ∃ t, interval_callback answers s = (Normal tt, s, t)
    ∧ forallb (fun e => is_poll e || is_play e) t = true
    ∧ (isMounted s = false ∨ pagViewRef s = None → t = []).
Proof.
  destruct answers as [gp sp pl].
  unfold interval_callback, poll_progress, reset_progress. unfold_m.
  cbn [getProgress setProgress play_again].
  destruct (pagViewRef s) as [a|]; [|by eauto].
  destruct (isMounted s); [|by eauto].
  destruct gp as [[v|[q|]]|]; cbn [or_zero].
  2: destruct (Qle_bool restart_threshold q);
       [destruct sp as [[|v]|]; [| |destruct pl]|].
  all: eexists; split; [reflexivity|]; split; [done|].
  all: by intros [|].
Qed.

(** X3.  After the teardown.  From the moment the flag is down it stays
    down, whatever happens next; no failure is reported any more (the
    error hook is never written again, whichever stage fails); and the
    interval callback, should it still fire, neither polls nor resets the
    progress of any view. *)
Theorem after_teardown_quiet (props : PagAnimationProps) (engine : Engine)
    (m : Machine) (evs : list Event) :
  isMounted (st m) = false →
  ∃ m' t,
    exec props engine evs m = (Normal m', t)
    ∧ isMounted (st m') = false
    ∧ error (st m') = error (st m)
    ∧ forallb (fun e => negb (is_poll e) && negb (is_report e)) t = true.
Proof.
  intros Hdown.
  pose (R := fun (m' : Machine) (t : list Effect) =>
    isMounted (st m') = false ∧ error (st m') = error (st m)
    ∧ forallb (fun e => negb (is_poll e) && negb (is_report e)) t = true).
  destruct (exec_invariant props engine any_event R) with (evs := evs) (m := m) (t0 := @nil Effect)
    as (m' & t & Hexec & HR); [|apply forallb_any_event|done|by exists m', t].
  clear. intros ev [p0 s0] t0 _ (Hdown & Hkeep & Hquiet). cbn [st] in *.
  unfold R. cbn [st]. setoid_rewrite forallb_app. rewrite Hquiet, <- Hkeep.
  destruct ev as [|destroy|id answers| |rejection]; cbn [step pc st].
  - (* a promise settles: the catch clause sees the flag down *)
    destruct props as [file w h ap lp].
    destruct engine as [i f l v hr r pl].
    destruct s0 as [mo cv pv il er hp tm nt]. cbn in Hdown. subst mo.
    destruct p0 as [| |response| | |pagView|]; explore.
    all: by do 3 eexists.
  - unfold_m. rewrite cleanup_run. do 3 eexists. split; [done|].
    destruct (after_cleanup_cleared s0) as [-> _].
    rewrite after_cleanup_error, app_nil_r.
    by rewrite cleanup_trace_forallb.
  - destruct (bool_decide _); [|by do 3 eexists].
    destruct (interval_callback_trace answers s0) as (t & Ht & _ & Hnone).
    unfold_m. rewrite Ht, Hnone by by left. by do 3 eexists.
  - by do 3 eexists.
  - by do 3 eexists.
Qed.

(** X4.  Only the cleanup gives anything back.  In a schedule without
    cleanup, from any point of an activation, no view is destroyed and no
    interval is cleared; an interval that is armed stays armed, a ref that
    holds a view keeps holding one, and no view object goes away.  So a
    view installed, or an interval armed, after the cleanup has run stays
    for good. *)
Theorem only_cleanup_releases (props : PagAnimationProps) (engine : Engine)
    (m : Machine) (evs : list Event) :
  forallb keeps_mounted evs = true →
  ∃ m' t,
    exec props engine evs m = (Normal m', t)
    ∧ forallb (fun e => negb (is_release e)) t = true
    ∧ timers (st m) ⊆ timers (st m')
    ∧ (is_Some (pagViewRef (st m)) → is_Some (pagViewRef (st m')))
    ∧ (length (heap (st m)) ≤ length (heap (st m')))%nat.
Proof.
  intros Hevs.
  pose (R := fun (m' : Machine) (t : list Effect) =>
    forallb (fun e => negb (is_release e)) t = true
    ∧ timers (st m) ⊆ timers (st m')
    ∧ (is_Some (pagViewRef (st m)) → is_Some (pagViewRef (st m')))
    ∧ (length (heap (st m)) ≤ length (heap (st m')))%nat).
  destruct (exec_invariant props engine keeps_mounted R)
    with (evs := evs) (m := m) (t0 := @nil Effect)
    as (m' & t & Hexec & HR); [|done|done|by exists m', t].
  clear. intros ev [p0 s0] t0 Hev (Hquiet & Htimers & Href & Hheap).
  cbn [st] in *. unfold R. cbn [st]. setoid_rewrite forallb_app. rewrite Hquiet.
  revert Htimers Href Hheap.
  generalize (timers (st m)) (pagViewRef (st m)) (length (heap (st m))).
  intros tm0 pv0 n0 Htimers Href Hheap.
  destruct ev as [|destroy|id answers| |rejection]; [|done|..]; cbn [step pc st].
  - destruct props as [file w h ap lp].
    destruct engine as [i f l v hr r pl].
    destruct s0 as [mo cv pv il er hp tm nt]. cbn [timers pagViewRef heap] in *.
    destruct p0 as [| |response| | |pagView|]; explore.
    all: do 3 eexists; split; [reflexivity|]; cbn [timers pagViewRef heap].
    all: repeat split; try done; try (intros; by eauto).
    all: try (rewrite ?length_insert, ?length_app; cbn [length]; lia).
    all: intros x Hx; apply elem_of_cons; right; by apply Htimers.
  - destruct (bool_decide _); [|by do 3 eexists].
    destruct (interval_callback_trace answers s0) as (t & Ht & Hcalls & _).
    unfold_m. rewrite Ht. do 3 eexists. split; [done|].
    repeat split; try done. rewrite app_nil_r.
    clear -Hcalls. induction t as [|e t IH]; [done|].
    cbn in *. apply andb_prop in Hcalls as [He Ht].
    rewrite IH by done. by destruct e.
  - by do 3 eexists.
  - by do 3 eexists.
Qed.

(** ** The order of the bring-up *)

Lemma filter_none (Q : Effect → bool) t :
  forallb (fun e => negb (Q e)) t = true → List.filter Q t = [].
Proof.
  induction t as [|e t IH]; [done|]. cbn. intros H.
  apply andb_prop in H as [He Ht]. destruct (Q e); [done|by apply IH].
Qed.

Lemma after_cleanup_heap s :
  heap (after_cleanup s) = heap s ∧ nextTimer (after_cleanup s) = nextTimer s.
Proof.
  unfold after_cleanup. destruct (pagViewRef s) as [a|]; [|done].
  by destruct (truthy_id _).
Qed.

Lemma bringup_step props engine s0 ev m t0 :
  bringup_in_order props engine s0 m t0 →
  ∃ p s t, step props engine ev m = (Normal p, s, t)
    ∧ bringup_in_order props engine s0 {| pc := p; st := s |} (t0 ++ t).
Proof.
  destruct m as [p0 s1]. unfold bringup_in_order, bringup_calls. cbn [pc st].
  generalize (length (heap s0)) (nextTimer s0). intros n0 nt0.
  destruct ev as [|destroy|id answers| |rejection]; cbn [step pc st].
  - (* a promise settles *)
    destruct props as [file w h ap lp].
    destruct engine as [i f l v hr r pl].
    destruct s1 as [mo cv pv il er hp tm nt].
    destruct p0 as [| |response| | |pagView|];
      cbn [bringup_so_far pagFile loop autoPlay has_setRepeatCount heap nextTimer];
      [intros (Hft & Hnt & Hheap); cbn in Hnt, Hheap; subst..
      |intros (Hft & Hnt & Hheap & Hauto); cbn in Hnt, Hauto; subst
      |intros Hft].
    all: explore; do 3 eexists; (split; [reflexivity|]).
    all: rewrite List.filter_app, ?Hft.
    all: cbn [bringup_so_far pagFile loop autoPlay has_setRepeatCount heap nextTimer List.filter
              is_bringup app andb].
    all: rewrite ?Hheap, ?app_nil_r.
    all: try done.
    all: try (by eexists).
    all: try (by rewrite length_app; cbn; lia).
  - (* the cleanup *)
    unfold_m. rewrite cleanup_run. do 3 eexists. split; [reflexivity|].
    destruct (after_cleanup_heap s1) as [-> ->].
    rewrite List.filter_app.
    rewrite app_nil_r, (filter_none is_bringup (cleanup_trace _ _)), app_nil_r;
      [done|].
    by apply cleanup_trace_forallb.
  - (* the interval fires *)
    destruct (bool_decide _); [|do 3 eexists; split; [done|]; by rewrite app_nil_r].
    destruct (interval_callback_trace answers s1) as (t & Ht & Hcalls & _).
    unfold_m. rewrite Ht. do 3 eexists. split; [reflexivity|].
    rewrite List.filter_app.
    rewrite app_nil_r, (filter_none is_bringup t), app_nil_r; [done|].
    clear -Hcalls. induction t as [|e t IH]; [done|].
    cbn in *. apply andb_prop in Hcalls as [He Ht].
    rewrite IH by done. by destruct e.
  - (* the canvas is detached *)
    do 3 eexists. split; [done|]. by rewrite app_nil_r.
  - (* a dropped promise rejects *)
    do 3 eexists. split; [done|].
    by rewrite List.filter_app, !app_nil_r.
Qed.

Lemma bringup_initial props engine s0 :
  ∃ p s t, useEffect_body s0 = (Normal p, s, t)
    ∧ bringup_in_order props engine s0 {| pc := p; st := s |} t.
Proof.
  unfold bringup_in_order, bringup_calls.
  destruct s0 as [mo cv pv il er hp tm nt].
  destruct props as [file w h ap lp].
  explore; do 3 eexists; (split; [reflexivity|]); cbn.
  all: try done. all: by eexists.
Qed.

(** X5.  The bring-up calls are made in the order of the source, each at
    most once.  Whatever the collaborators answer and whatever the host
    schedules, the calls to [PAGInit], [fetch], [arrayBuffer],
    [PAGFile.load], [PAGView.init], [setRepeatCount] and [setInterval]
    that an activation makes are, in this order, a first part of: one of
    each, [setRepeatCount(-1)] on the new view only when [loop] is set
    and the view has that method, [setInterval(.., 100)] only when
    [autoPlay] and [loop] are both set.  And in a run that is not torn
    down and in which no stage fails, all of them are made.  On a view
    without the method, [setRepeatCount] is never called, whatever
    [loop] says. *)
Theorem bringup_once_in_order (props : PagAnimationProps) (engine : Engine)
    (s0 : State) (evs : list Event) :
  (∃ m t,
     run props engine s0 evs = (Normal m, t)
     ∧ List.filter is_bringup t `prefix_of` bringup_calls props engine s0
     ∧ (has_setRepeatCount engine = false →
        ∀ a count, CallSetRepeatCount a count ∉ t))
  ∧ (failure props engine (canvasRef s0) = None →
     ∃ m t,
       live_run props engine s0 awaits = (Normal m, t)
       ∧ List.filter is_bringup t = bringup_calls props engine s0).
Proof.
  split.
  - destruct (bringup_initial props engine s0) as (p0 & s1 & t0 & Hbody & Hinit).
    destruct (exec_invariant props engine any_event (bringup_in_order props engine s0))
      with (evs := evs) (m := {| pc := p0; st := s1 |}) (t0 := t0)
      as (m & t & Hexec & Hord);
      [|apply forallb_any_event|done|].
    { intros ev m t1 _. apply bringup_step. }
    exists m, (t0 ++ t). unfold run. rewrite Hbody, Hexec. split; [done|].
    assert (List.filter is_bringup (t0 ++ t)
              `prefix_of` bringup_calls props engine s0) as Hpre.
    { revert Hord. unfold bringup_in_order, bringup_calls.
      generalize (List.filter is_bringup (t0 ++ t)). intros calls.
      destruct (pc m) as [| |response| | |a|]; cbn [bringup_so_far];
        [intros (-> & _); by eexists..
        |intros (-> & _ & -> & ->); cbn;
         destruct (loop props && has_setRepeatCount engine); by eexists
        |done]. }
    split; [done|]. intros Hhas a count Hin.
    assert (CallSetRepeatCount a count ∈ bringup_calls props engine s0) as Hcall.
    { destruct Hpre as [rest ->]. apply elem_of_app. left.
      apply list_elem_of_In, filter_In. split; [by apply list_elem_of_In|done]. }
    revert Hcall. unfold bringup_calls. rewrite Hhas, andb_false_r.
    rewrite !elem_of_app, !elem_of_cons, elem_of_nil.
    destruct (autoPlay props && loop props);
      rewrite ?elem_of_cons, ?elem_of_nil; intuition discriminate.
  - unfold bringup_calls.
    destruct props as [file w h ap lp].
    destruct engine as [i f l v hr r pl].
    destruct s0 as [mo cv pv il er hp tm nt].
    explore; intros Hf; simplify_eq; by do 2 eexists.
Qed.

(** ** Without autoplay *)

Lemma after_cleanup_no_timers s : timers s = [] → timers (after_cleanup s) = [].
Proof.
  intros Htm. unfold after_cleanup. destruct (pagViewRef s) as [a|]; [|done].
  destruct (truthy_id _); cbn; by rewrite ?Htm.
Qed.

Lemma no_timers_no_watchdog s : timers s = [] → watchdog s = None.
Proof.
  intros Htm. unfold watchdog. rewrite Htm.
  destruct (pagViewRef s) as [a|]; [|done].
  by destruct (get_loopIntervalId s a).
Qed.

(** X6.  Without autoplay nothing is ever played.  When [autoPlay] is off
    and no interval is armed as the activation starts, then whatever the
    collaborators answer and whatever the host schedules, [play()] is
    never called, no interval is ever set, and no watchdog ever exists,
    [loop] or not. *)
Theorem no_autoplay_never_plays (props : PagAnimationProps) (engine : Engine)
    (s0 : State) (evs : list Event) :
  autoPlay props = false →
  timers s0 = [] →
  ∃ m t,
    run props engine s0 evs = (Normal m, t)
    ∧ forallb (fun e => negb (is_play e) && negb (is_setInterval e)) t = true
    ∧ timers (st m) = []
    ∧ watchdog (st m) = None.
Proof.
  intros Hauto Htimers.
  pose (R := fun (m : Machine) (t : list Effect) =>
    forallb (fun e => negb (is_play e) && negb (is_setInterval e)) t = true
    ∧ timers (st m) = []
    ∧ ∀ a, pc m ≠ AtPlay a).
  assert (∃ p s t, useEffect_body s0 = (Normal p, s, t)
            ∧ R {| pc := p; st := s |} t) as (p0 & s1 & t0 & Hbody & Hinit).
  { unfold R. destruct s0 as [mo cv pv il er hp tm nt]. cbn in Htimers. subst tm.
    explore; by do 3 eexists. }
  destruct (exec_invariant props engine any_event R)
    with (evs := evs) (m := {| pc := p0; st := s1 |}) (t0 := t0)
    as (m & t & Hexec & Hquiet & Htm & _);
    [|apply forallb_any_event|done|].
  2: { exists m, (t0 ++ t). unfold run. rewrite Hbody, Hexec.
       auto using no_timers_no_watchdog. }
  clear -Hauto. intros ev [p1 s] t1 _ (Hquiet & Htm & Hpc).
  unfold R. cbn [pc st] in *. setoid_rewrite forallb_app. rewrite Hquiet.
  destruct ev as [|destroy|id answers| |rejection]; cbn [step pc st].
  - destruct props as [file w h ap lp]. cbn in Hauto. subst ap.
    destruct engine as [i f l v hr r pl].
    destruct s as [mo cv pv il er hp tm nt]. cbn in Htm. subst tm.
    destruct p1 as [| |response| | |pagView|]; [..|by destruct (Hpc pagView)|].
    all: explore; by do 3 eexists.
  - unfold_m. rewrite cleanup_run. do 3 eexists. split; [done|].
    rewrite app_nil_r, after_cleanup_no_timers by done.
    by rewrite cleanup_trace_forallb.
  - rewrite Htm. by do 3 eexists.
  - by do 3 eexists.
  - by do 3 eexists.
Qed.

(** ** The canvas and the defaults *)

(** X7.  The canvas gets the requested size.  In a run that is not torn
    down, once the file has been decoded the canvas has been assigned the
    width and the height of the props, also when the bind or the start of
    playback then fails; a failure before that leaves the canvas as it
    was.  The canvas then has exactly the requested width and height
    when these are between 0 and 2147483647, so 300 by 300 where the
    caller gave none.  A number that, taken modulo 2^32, is beyond that
    range is not kept: the canvas falls back to its own default, 300 wide
    or 150 high. *)
Theorem canvas_sized (a : Attributes) (engine : Engine) (s0 : State) :
  (∃ s t,
     live_run (destructure a) engine s0 awaits =
       (Normal {| pc := Finished; st := s |}, t)
     ∧ canvasRef s =
         match failure (destructure a) engine (canvasRef s0) with
         | Some f =>
             if before_sizing f then canvasRef s0 else Some (requested_size a)
         | None => Some (requested_size a)
         end)
  ∧ (keeps_size (width (destructure a)) →
     canvas_width (requested_size a) = width (destructure a))
  ∧ (keeps_size (height (destructure a)) →
     canvas_height (requested_size a) = height (destructure a))
  ∧ (attr_width a = None → canvas_width (requested_size a) = 300)
  ∧ (attr_height a = None → canvas_height (requested_size a) = 300)
  ∧ (¬ keeps_size (to_unsigned_long (width (destructure a))) →
     canvas_width (requested_size a) = 300)
  ∧ (¬ keeps_size (to_unsigned_long (height (destructure a))) →
     canvas_height (requested_size a) = 150).
Proof.
  split.
  - destruct a as [file aw ah aap alp].
    unfold requested_size, destructure.
    cbn [attr_pagFile attr_width attr_height attr_autoPlay attr_loop].
    generalize (default 300 aw) (default 300 ah) (default true aap)
               (default true alp).
    intros w h ap lp.
    destruct engine as [i f l v hr r pl].
    destruct s0 as [mo cv pv il er hp tm nt].
    explore; by do 2 eexists.
  - unfold keeps_size, requested_size, destructure, reflect_unsigned_long,
      to_unsigned_long.
    cbn [canvas_width canvas_height width height].
    repeat split.
    + intros Hw. rewrite Z.mod_small by lia.
      destruct (Z.leb_spec (default 300 (attr_width a)) 2147483647); [done|lia].
    + intros Hh. rewrite Z.mod_small by lia.
      destruct (Z.leb_spec (default 300 (attr_height a)) 2147483647); [done|lia].
    + by intros ->.
    + by intros ->.
    + intros Hw.
      destruct (Z.leb_spec (default 300 (attr_width a) mod 4294967296)
                           2147483647) as [Hle|]; [|done].
      exfalso. apply Hw. split; [|done].
      by apply Z.mod_pos_bound.
    + intros Hh.
      destruct (Z.leb_spec (default 300 (attr_height a) mod 4294967296)
                           2147483647) as [Hle|]; [|done].
      exfalso. apply Hh. split; [|done].
      by apply Z.mod_pos_bound.
Qed.

(** A width of 4294967301 wraps around to 5, and a height of -5 to a
    number no canvas keeps: it falls back to 150. *)
Lemma canvas_out_of_range :
  requested_size {| attr_pagFile := "a.bin"; attr_width := Some 4294967301;
                    attr_height := Some (-5); attr_autoPlay := None;
                    attr_loop := None |}
  = {| canvas_width := 5; canvas_height := 150 |}.
Proof. reflexivity. Qed.

(** X8.  Left to its defaults the component autoplays and loops.  When
    the caller gives neither [autoPlay] nor [loop] and no stage fails, a
    run that is not torn down calls [play()] on the new view, ends
    [Ready], and has armed the watchdog of that view with a period of
    100.  Before [play()] it calls [setRepeatCount(-1)] on a view that has
    this method; on a view that has not, no such call is made, and the
    warning of line 92 is logged instead. *)
Theorem defaults_autoplay_and_loop (a : Attributes) (engine : Engine)
    (s0 : State) :
  attr_autoPlay a = None →
  attr_loop a = None →
  failure (destructure a) engine (canvasRef s0) = None →
  ∃ s t,
    live_run (destructure a) engine s0 awaits =
      (Normal {| pc := Finished; st := s |}, t)
    ∧ presentation s = Ready
    ∧ pagViewRef s = Some (length (heap s0))
    ∧ watchdog s = Some (nextTimer s0)
    ∧ CallPlay (length (heap s0)) ∈ t
    ∧ CallSetInterval (nextTimer s0) 100 ∈ t
    ∧ (has_setRepeatCount engine = true →
       CallSetRepeatCount (length (heap s0)) (-1) ∈ t)
    ∧ (has_setRepeatCount engine = false →
       (∀ a count, CallSetRepeatCount a count ∉ t)
       ∧ ConsoleWarn "setRepeatCount not available, using alternative approach" ∈ t).
Proof.
  destruct a as [file aw ah aap alp]. cbn. intros -> ->.
  unfold destructure. cbn [attr_pagFile attr_width attr_height attr_autoPlay
                           attr_loop default].
  generalize (default 300 aw) (default 300 ah). intros w h.
  destruct engine as [i f l v hr r pl].
  destruct s0 as [mo cv pv il er hp tm nt].
  explore; intros Hf; simplify_eq.
  all: do 2 eexists; split; [reflexivity|]; cbn [presentation error isLoading
         pagViewRef heap nextTimer].
  all: split; [done|]; split; [done|]; split; [by read_watchdog|].
  all: do 2 (split; [rewrite !elem_of_app, !elem_of_cons; tauto|]).
  all: cbn [has_setRepeatCount].
  all: split; [intros Hhas|intros Hhas; split; [intros view count|]];
         try discriminate Hhas.
  all: rewrite ?elem_of_app, ?elem_of_cons, ?elem_of_nil; try tauto.
  all: intuition discriminate.
Qed.

(** X9.  No canvas, no watchdog.  When the canvas is detached from its
    ref while the bind or the start of playback is pending, a run in which
    nothing fails still installs the view and ends [Ready], but sets no
    interval: with [autoPlay] and [loop] both set the view is left
    without its watchdog. *)
Theorem detached_canvas_no_watchdog (props : PagAnimationProps)
    (engine : Engine) (s0 : State) (k : nat) :
  failure props engine (canvasRef s0) = None →
  (4 ≤ k ≤ 5)%nat →
  ∃ s t,
    run props engine s0 (detached_after k) =
      (Normal {| pc := Finished; st := s |}, t)
    ∧ presentation s = Ready
    ∧ pagViewRef s = Some (length (heap s0))
    ∧ watchdog s = None
    ∧ timers s = timers s0
    ∧ forallb (fun e => negb (is_setInterval e)) t = true.
Proof.
  intros Hf Hk. revert Hf.
  assert (k = 4 ∨ k = 5)%nat as [-> | ->] by lia.
  all: unfold detached_after; cbn [awaits repeat app Nat.sub].
  all: open_run props engine s0.
  all: explore; intros Hf; simplify_eq.
  all: do 2 eexists; split; [reflexivity|].
  all: cbn [presentation error isLoading pagViewRef heap timers].
  all: repeat split; try done; by read_watchdog.
Qed.

(** X10.  A canvas that goes away while the file is loading.  When the
    canvas is detached from its ref before the decode is over, and the
    stages up to the decode succeed, the initializer fails at the point
    where it would size the canvas: the run ends [Error], [PAGView.init]
    is never called, and no view is created or installed. *)
Theorem detached_canvas_is_an_error (props : PagAnimationProps)
    (engine : Engine) (s0 : State) (k : nat) :
  is_Some (canvasRef s0) →
  (∀ f, failure props engine (canvasRef s0) = Some f → before_sizing f = false) →
  (k ≤ 3)%nat →
  ∃ s t,
    run props engine s0 (detached_after k) =
      (Normal {| pc := Finished; st := s |}, t)
    ∧ (∃ msg, presentation s = Error msg)
    ∧ canvasRef s = None
    ∧ pagViewRef s = pagViewRef s0
    ∧ heap s = heap s0
    ∧ forallb (fun e => negb (is_bind e)) t = true.
Proof.
  intros [c Hc] Hf Hk. revert Hf.
  assert (k = 0 ∨ k = 1 ∨ k = 2 ∨ k = 3)%nat as [-> | [-> | [-> | ->]]] by lia.
  all: unfold detached_after; cbn [awaits repeat app Nat.sub].
  all: open_run props engine s0; cbn in Hc; subst.
  all: explore; intros Hf.
  all: try (by discriminate (Hf _ eq_refl)).
  all: do 2 eexists; split; [reflexivity|].
  all: cbn [presentation error isLoading pagViewRef heap canvasRef].
  all: repeat split; try done; by eexists.
Qed.

(** ** What is shown *)

(** X11.  What a finished run shows.  After a run that is not torn down,
    the markup is the error pane with "Failed to load animation: " and
    the message when a stage failed with a message that is not empty, and
    otherwise the container with the canvas and without the overlay: a
    failure whose message is empty looks exactly like success. *)
Theorem finished_run_markup (props : PagAnimationProps) (engine : Engine)
    (s0 : State) :
  ∃ s t,
    live_run props engine s0 awaits =
      (Normal {| pc := Finished; st := s |}, t)
    ∧ render s =
        match failure props engine (canvasRef s0) with
        | Some f =>
            if String.eqb (failure_message f) "" then PagContainer false
            else PagError ("Failed to load animation: " +:+ failure_message f)
        | None => PagContainer false
        end.
Proof.
  open_run props engine s0.
  explore; do 2 eexists; (split; [reflexivity|]); cbn [render error isLoading].
  all: try done.
  all: by destruct (String.eqb _ "").
Qed.

(** ** One activation after the other *)

Lemma occurrences_app kind t1 t2 :
  occurrences kind (t1 ++ t2) = (occurrences kind t1 + occurrences kind t2)%nat.
Proof. unfold occurrences. by rewrite List.filter_app, length_app. Qed.

(** Where a run that started idle and was left alone ends: without a
    view, or with a view that has no interval, or with a view and its
    interval; and what it has installed and armed on the way. *)
Lemma live_run_from_idle props engine s0 :
  idle s0 →
  ∃ s t,
    live_run props engine s0 awaits = (Normal {| pc := Finished; st := s |}, t)
    ∧ 0 < nextTimer s
    ∧ ((pagViewRef s = None ∧ timers s = []
        ∧ occurrences is_install t = 0%nat
        ∧ occurrences is_setInterval t = 0%nat)
       ∨ (∃ a, pagViewRef s = Some a ∧ get_loopIntervalId s a = None
            ∧ timers s = []
            ∧ occurrences is_install t = 1%nat
            ∧ occurrences is_setInterval t = 0%nat)
       ∨ (∃ a id, pagViewRef s = Some a ∧ get_loopIntervalId s a = Some id
            ∧ timers s = [id] ∧ id ≠ 0
            ∧ occurrences is_install t = 1%nat
            ∧ occurrences is_setInterval t = 1%nat))
    ∧ occurrences is_destroy t = 0%nat
    ∧ occurrences is_clearInterval t = 0%nat.
Proof.
  intros (Href & Htm & Hnt).
  open_run props engine s0. cbn in Href, Htm, Hnt. subst.
  explore; do 2 eexists; (split; [reflexivity|]).
  all: cbn [nextTimer pagViewRef timers].
  all: split; [lia|]; split; [|by split].
  all: first
    [ by left
    | right; left; eexists; unfold get_loopIntervalId; cbn [heap];
      by rewrite lookup_new_view
    | right; right; do 2 eexists; unfold get_loopIntervalId; cbn [heap];
      rewrite lookup_tagged_view; repeat split; try done; lia ].
Qed.

(** One activation from start to cleanup takes an idle component to an
    idle component, and gives back what it took. *)
Lemma one_lifetime_idle l s0 :
  idle s0 →
  ∃ s t, one_lifetime l s0 = (s, t)
    ∧ idle s
    ∧ occurrences is_destroy t = occurrences is_install t
    ∧ occurrences is_clearInterval t = occurrences is_setInterval t.
Proof.
  intros Hidle.
  assert (idle (enter l s0)) as Hentered.
  { destruct Hidle as (? & ? & ?). by repeat split. }
  destruct (live_run_from_idle (lt_props l) (lt_engine l) _ Hentered)
    as (s1 & t1 & Hrun & Hnt & Hshape & Hd & Hc).
  unfold one_lifetime. unfold live_run in Hrun. rewrite run_app, Hrun.
  cbn [exec step pc st]. unfold_m. rewrite cleanup_run.
  do 2 eexists. split; [reflexivity|]. cbn [st].
  rewrite !app_nil_r, !occurrences_app, Hd, Hc.
  destruct (after_cleanup_cleared s1) as [_ Href].
  destruct (after_cleanup_heap s1) as [_ Hnext].
  unfold idle. rewrite Href, Hnext.
  destruct Hshape as [(Hpv & Htm & -> & ->)
                     |[(a & Hpv & Hget & Htm & -> & ->)
                      |(a & id & Hpv & Hget & Htm & Hid & -> & ->)]].
  all: unfold after_cleanup, cleanup_trace, occurrences.
  all: rewrite Hpv, ?Hget.
  - cbn. by rewrite Htm.
  - cbn. rewrite Htm. by destruct (lt_destroy l).
  - cbn [truthy_id]. destruct (Z.eqb_spec id 0) as [|_]; [done|].
    cbn. rewrite Htm.
    rewrite filter_cons_False, filter_nil by (intros Hne; by apply Hne).
    by destruct (lt_destroy l).
Qed.

(** At every point of a run that started idle, the armed intervals are
    the watchdog of the installed view and nothing else. *)
Lemma live_run_only_the_watchdog props engine s0 k :
  idle s0 →
  ∃ m t, live_run props engine s0 k = (Normal m, t)
    ∧ only_the_watchdog (st m).
Proof.
  intros (Href & Htm & _).
  assert (∀ s, (timers s = [] ∧ watchdog s = None)
             ∨ (∃ id, timers s = [id] ∧ watchdog s = Some id) →
             only_the_watchdog s) as Hshape.
  { intros s [[Ht Hw]|(id & Ht & Hw)]; unfold only_the_watchdog;
      by rewrite Ht, Hw. }
  destruct (decide (k < awaits)%nat) as [Hk|Hk].
  - open_run props engine s0. cbn in Href, Htm. subst.
    do 6 (destruct k as [|k];
          [explore; do 2 eexists; (split; [reflexivity|]); apply Hshape;
           cbn [st timers];
           first [left; split; [done|by read_watchdog]
                 |right; eexists; split; [done|by read_watchdog]]|]).
    unfold awaits in Hk; lia.
  - rewrite live_run_stable by lia.
    open_run props engine s0. cbn in Href, Htm. subst.
    explore; do 2 eexists; (split; [reflexivity|]); apply Hshape;
      cbn [st timers];
      first [left; split; [done|by read_watchdog]
            |right; eexists; split; [done|by read_watchdog]].
Qed.

(** X12.  One activation after the other.  Let the component go through
    any number of activations, each with its own props, canvas and
    collaborators, each left alone until its initializer has finished and
    then cleaned up.  Between two activations no view is installed and no
    interval armed; over the whole history every view that was installed
    has been destroyed and every interval that was set has been cleared;
    and at every point of the activation that comes next, the only
    interval armed is the watchdog of the view installed then: two
    watchdogs never run at the same time. *)
Theorem lifetimes_leave_nothing_behind (ls : list Lifetime) (s0 : State) :
  idle s0 →
  ∃ s t,
    lifetimes ls s0 = (s, t)
    ∧ idle s
    ∧ occurrences is_destroy t = occurrences is_install t
    ∧ occurrences is_clearInterval t = occurrences is_setInterval t
    ∧ ∀ l k, ∃ m t',
        live_run (lt_props l) (lt_engine l) (enter l s) k = (Normal m, t')
        ∧ only_the_watchdog (st m).
Proof.
  revert s0. induction ls as [|l ls IH]; intros s0 Hidle.
  - exists s0, []. split; [done|]. split; [done|]. split; [done|].
    split; [done|].
    intros l k. apply live_run_only_the_watchdog.
    destruct Hidle as (? & ? & ?). by repeat split.
  - destruct (one_lifetime_idle l s0 Hidle) as (s1 & t1 & Hone & Hidle1 & Hd1 & Hc1).
    destruct (IH s1 Hidle1) as (s & t & Hrest & Hidle' & Hd & Hc & Hnext).
    exists s, (t1 ++ t). cbn [lifetimes]. rewrite Hone, Hrest.
    rewrite !occurrences_app, Hd1, Hc1, Hd, Hc.
    split; [done|]. split; [done|]. split; [done|]. split; [done|]. exact Hnext.
Qed.

(** ** Teardown while the file is loading *)

(** Symbolic execution through a cleanup as well. *)
Ltac explore_teardown :=
  repeat (cbv beta iota zeta delta
            [live_run run exec step resume useEffect_body initPagAnimation
             awaits from_entry from_PAGInit from_fetch from_arrayBuffer
             from_load from_init from_play on_error message_of
             cleanup read_loopIntervalId
             mbind M_bind mret M_ret bind ret throw try_catch gets update
             call settle returns setIsLoading setError write_pagViewRef
             write_isMounted write_canvas_size new_view setInterval
             write_loopIntervalId
             with_isMounted with_canvasRef with_pagViewRef with_isLoading
             with_error with_heap with_timers
             isMounted canvasRef pagViewRef isLoading error heap timers
             nextTimer pagFile width height autoPlay loop
             PAGInit fetch PAGFile_load PAGView_init has_setRepeatCount setRepeatCount play
             ok statusText arrayBuffer pc st negb andb
             presentation failure before_sizing stage_of String.append];
          match goal with
          | |- context [match ?x with _ => _ end] => is_var x; destruct x
          end);
  cbv beta iota zeta delta
    [live_run run exec step resume useEffect_body initPagAnimation
     awaits from_entry from_PAGInit from_fetch from_arrayBuffer
     from_load from_init from_play on_error message_of
     cleanup read_loopIntervalId
     mbind M_bind mret M_ret bind ret throw try_catch gets update
     call settle returns setIsLoading setError write_pagViewRef
     write_isMounted write_canvas_size new_view setInterval
     write_loopIntervalId
     with_isMounted with_canvasRef with_pagViewRef with_isLoading
     with_error with_heap with_timers
     isMounted canvasRef pagViewRef isLoading error heap timers
     nextTimer pagFile width height autoPlay loop
     PAGInit fetch PAGFile_load PAGView_init has_setRepeatCount setRepeatCount play
     ok statusText arrayBuffer pc st negb andb
     presentation failure before_sizing stage_of String.append].

(** X13.  Teardown before the check of line 70.  Let the cleanup run
    while the bootstrap, the fetch, the body or the decode is pending,
    and let the pending promises settle afterwards.  Then the initializer
    never calls [PAGView.init], installs no view and reports nothing: the
    hooks stay at [Loading].  A stage that fails after the cleanup is
    still logged with [console.error], once; when no such stage fails the
    initializer returns without a trace in the console. *)
Theorem teardown_while_loading (props : PagAnimationProps) (engine : Engine)
    (s0 : State) (destroy : option JsValue) (k : nat) :
  is_Some (canvasRef s0) →
  pagViewRef s0 = None →
  (k ≤ 3)%nat →
  (∀ f, failure props engine (canvasRef s0) = Some f → (k ≤ stage_of f)%nat) →
  ∃ s t,
    run props engine s0 (cleanup_after destroy k) =
      (Normal {| pc := Finished; st := s |}, t)
    ∧ presentation s = Loading
    ∧ pagViewRef s = None
    ∧ heap s = heap s0
    ∧ forallb (fun e => negb (is_bind e) && negb (is_report e)) t = true
    ∧ occurrences is_console_error t =
        match failure props engine (canvasRef s0) with
        | Some f => if before_sizing f then 1%nat else 0%nat
        | None => 0%nat
        end.
Proof.
  intros [c Hc] Href Hk Hf. revert Hf.
  assert (k = 0 ∨ k = 1 ∨ k = 2 ∨ k = 3)%nat as [-> | [-> | [-> | ->]]] by lia.
  all: unfold cleanup_after; cbn [awaits repeat app Nat.sub].
  all: open_run props engine s0; cbn in Hc, Href; subst.
  all: explore_teardown; intros Hf.
  all: try (by specialize (Hf _ eq_refl); cbn in Hf; lia).
  all: do 2 eexists; split; [reflexivity|].
  all: by repeat split.
Qed.

(** ** The watchdog and the state *)

(** X15.  The watchdog changes nothing of the component.  Take every tick
    out of a schedule (any schedule, with or without cleanup): the run
    ends at the same point of the initializer with the same cells, hooks,
    ref, heap and timers.  What the interval callback does, it does to
    the view alone. *)
Theorem ticks_change_no_state (props : PagAnimationProps) (engine : Engine)
    (s0 : State) (evs : list Event) :
  ∃ m t t',
    run props engine s0 evs = (Normal m, t)
    ∧ run props engine s0 (without_ticks evs) = (Normal m, t').
Proof.
  assert (∀ evs m, ∃ m' t t',
            exec props engine evs m = (Normal m', t)
            ∧ exec props engine (without_ticks evs) m = (Normal m', t'))
    as Hexec.
  { clear. intros evs. induction evs as [|ev evs IH]; intros m.
    { by exists m, [], []. }
    assert (∀ ev', (match ev' with Tick _ _ => false | _ => true end) = true →
              ∃ m' t t',
                exec props engine (ev' :: evs) m = (Normal m', t)
                ∧ exec props engine (ev' :: without_ticks evs) m = (Normal m', t'))
      as Hkept.
    { intros ev' _. cbn [exec].
      destruct (step_normal props engine ev' m) as (p & s & t1 & ->).
      destruct (IH {| pc := p; st := s |}) as (m' & t & t' & -> & ->).
      by eauto. }
    destruct ev as [|destroy|id answers| |rejection];
      [by apply Hkept|by apply Hkept| |by apply Hkept|by apply Hkept].
    cbn [without_ticks List.filter exec step]. fold (without_ticks evs).
    destruct (IH m) as (m' & t & t' & Hall & Hw).
    destruct m as [p s]. cbn [pc st].
    destruct (bool_decide _).
    - destruct (interval_callback_quiet answers s) as [t1 Ht1].
      unfold_m. rewrite Ht1, Hall. by eauto.
    - rewrite Hall. by eauto. }
  unfold run.
  destruct (useEffect_body s0) as [[[p0|v] s1] t0] eqn:Hbody.
  - destruct (Hexec evs {| pc := p0; st := s1 |}) as (m & t & t' & -> & ->).
    by eauto.
  - destruct (useEffect_body_valid s0) as (p & s & t & Hvalid & _). congruence.
Qed.

(** ** The properties at work *)

Lemma after_teardown_quiet_witness :
  ∃ m' t,
    exec (a_bin true true) all_fine [Settles; Settles; Tick 1 at_the_end]
      torn_down_at_bind = (Normal m', t)
    ∧ isMounted (st m') = false
    ∧ error (st m') = error (st torn_down_at_bind)
    ∧ forallb (fun e => negb (is_poll e) && negb (is_report e)) t = true.
Proof.
  apply (after_teardown_quiet (a_bin true true) all_fine torn_down_at_bind).
  reflexivity.
Defined.

Lemma only_cleanup_releases_witness :
  ∃ m' t,
    exec (a_bin true true) all_fine [Settles; Settles; Tick 1 at_the_end]
      torn_down_at_bind = (Normal m', t)
    ∧ forallb (fun e => negb (is_release e)) t = true
    ∧ timers (st torn_down_at_bind) ⊆ timers (st m')
    ∧ (is_Some (pagViewRef (st torn_down_at_bind)) → is_Some (pagViewRef (st m')))
    ∧ (length (heap (st torn_down_at_bind)) ≤ length (heap (st m')))%nat.
Proof.
  apply (only_cleanup_releases (a_bin true true) all_fine torn_down_at_bind).
  reflexivity.
Defined.

Lemma no_autoplay_never_plays_witness :
  ∃ m t,
    run (a_bin false true) all_fine (first_render (Some a_canvas))
      (repeat Settles awaits ++ [Tick 1 at_the_end; Cleanup None]) = (Normal m, t)
    ∧ forallb (fun e => negb (is_play e) && negb (is_setInterval e)) t = true
    ∧ timers (st m) = []
    ∧ watchdog (st m) = None.
Proof.
  apply (no_autoplay_never_plays (a_bin false true) all_fine
           (first_render (Some a_canvas))); reflexivity.
Defined.

Lemma defaults_autoplay_and_loop_witness :
  ∃ s t,
    live_run (destructure only_the_file) all_fine
      (first_render (Some a_canvas)) awaits =
      (Normal {| pc := Finished; st := s |}, t)
    ∧ presentation s = Ready
    ∧ pagViewRef s = Some 0%nat
    ∧ watchdog s = Some 1
    ∧ CallSetRepeatCount 0 (-1) ∈ t
    ∧ CallPlay 0 ∈ t
    ∧ CallSetInterval 1 100 ∈ t.
Proof.
  destruct (defaults_autoplay_and_loop only_the_file all_fine
              (first_render (Some a_canvas)) eq_refl eq_refl eq_refl)
    as (s & t & Hrun & Hready & Href & Hwatch & Hplay & Harm & Hrepeat & _).
  exists s, t. repeat split; try assumption. exact (Hrepeat eq_refl).
Defined.

Lemma detached_canvas_no_watchdog_witness :
  ∃ s t,
    run (a_bin true true) all_fine (first_render (Some a_canvas))
      (detached_after 5) = (Normal {| pc := Finished; st := s |}, t)
    ∧ presentation s = Ready
    ∧ pagViewRef s = Some 0%nat
    ∧ watchdog s = None
    ∧ timers s = []
    ∧ forallb (fun e => negb (is_setInterval e)) t = true.
Proof.
  apply (detached_canvas_no_watchdog (a_bin true true) all_fine
           (first_render (Some a_canvas)) 5); [reflexivity|lia].
Defined.

Lemma detached_canvas_is_an_error_witness :
  ∃ s t,
    run (a_bin true true) all_fine (first_render (Some a_canvas))
      (detached_after 2) = (Normal {| pc := Finished; st := s |}, t)
    ∧ (∃ msg, presentation s = Error msg)
    ∧ canvasRef s = None
    ∧ pagViewRef s = None
    ∧ heap s = []
    ∧ forallb (fun e => negb (is_bind e)) t = true.
Proof.
  apply (detached_canvas_is_an_error (a_bin true true) all_fine
           (first_render (Some a_canvas)) 2); [by eexists|discriminate|lia].
Defined.

Lemma lifetimes_leave_nothing_behind_witness :
  ∃ s t,
    lifetimes
      [ {| lt_props := a_bin true true; lt_engine := all_fine;
           lt_canvas := Some a_canvas; lt_destroy := None |};
        {| lt_props := a_bin true false; lt_engine := play_rejects;
           lt_canvas := Some a_canvas; lt_destroy := Some JsOther |} ]
      (first_render (Some a_canvas)) = (s, t)
    ∧ idle s
    ∧ occurrences is_destroy t = 2%nat
    ∧ occurrences is_clearInterval t = 1%nat.
Proof.
  destruct (lifetimes_leave_nothing_behind
              [ {| lt_props := a_bin true true; lt_engine := all_fine;
                   lt_canvas := Some a_canvas; lt_destroy := None |};
                {| lt_props := a_bin true false; lt_engine := play_rejects;
                   lt_canvas := Some a_canvas; lt_destroy := Some JsOther |} ]
              (first_render (Some a_canvas)))
    as (s & t & Hrun & Hidle & _); [by repeat split|].
  exists s, t. split; [exact Hrun|]. split; [exact Hidle|].
  vm_compute in Hrun. injection Hrun as <- <-. split; reflexivity.
Defined.

Lemma teardown_while_loading_witness :
  ∃ s t,
    run (a_bin true true) network_down (first_render (Some a_canvas))
      (cleanup_after None 1) = (Normal {| pc := Finished; st := s |}, t)
    ∧ presentation s = Loading
    ∧ pagViewRef s = None
    ∧ heap s = []
    ∧ forallb (fun e => negb (is_bind e) && negb (is_report e)) t = true
    ∧ occurrences is_console_error t = 1%nat.
Proof.
  apply (teardown_while_loading (a_bin true true) network_down
           (first_render (Some a_canvas)) None 1);
    [by eexists|reflexivity|lia|].
  intros f [= <-]. cbn. lia.
Defined.

Lemma cleanup_before_mount_check_is_inert_witness :
  ∃ m t,
    exec (a_bin true true) network_down (Cleanup None :: repeat Settles 3)
      {| pc := AtFetch; st := with_isMounted true (first_render (Some a_canvas)) |}
      = (Normal m,
         cleanup_trace None (with_isMounted true (first_render (Some a_canvas)))
         ++ t)
    ∧ st m = after_cleanup (with_isMounted true (first_render (Some a_canvas)))
    ∧ forallb (fun e => negb (is_write e)) t = true.
Proof.
  apply (cleanup_before_mount_check_is_inert (a_bin true true) network_down
           AtFetch _ None 3).
  reflexivity.
Defined.
